(** * NodeServicePlugin: the process-lifecycle state machine of
      apps/heft/src/plugins/NodeServicePlugin.ts

    The plugin object is embedded as a record of its private fields; the
    Node.js runtime it talks to (clock, timer table, child processes, log
    sink) is a second record.  Every method of the class is a computation in
    a small state-and-exception monad over the pair of the two, written
    statement by statement after the TypeScript source.  Times and durations
    are milliseconds, taken as integers. *)

From Stdlib Require Import ZArith String List Lia Sorted.
From stdpp Require Import base option strings gmap.
Import ListNotations.

Local Open Scope string_scope.
Local Open Scope list_scope.
Local Open Scope Z_scope.

(** ** Data model *)

(** [enum State] (source lines 29-34). *)
Inductive State : Type := Stopped | Running | Stopping | Killing.

Definition State_eqb (a b : State) : bool :=
  match a, b with
  | Stopped, Stopped | Running, Running
  | Stopping, Stopping | Killing, Killing => true
  | _, _ => false
  end.

(** [INodeServicePluginCompleteConfiguration] (source lines 19-25). *)
Record INodeServicePluginCompleteConfiguration : Type := {
  commandName : string;
  ignoreMissingScript : bool;
  waitBeforeRestartMs : Z;
  waitForTerminateMs : Z;
  waitForKillMs : Z
}.

(** The defaults assigned in [apply] (source lines 75-81). *)
Definition defaults : INodeServicePluginCompleteConfiguration :=
  {| commandName := "serve"; ignoreMissingScript := false;
     waitBeforeRestartMs := 2000; waitForTerminateMs := 2000;
     waitForKillMs := 2000 |}.

(** [child_process.ChildProcess]: only the process id is ever read. *)
Record ChildProcess : Type := { pid : Z }.

(** The three closures handed to [setTimeout], defunctionalised. *)
Inductive TimerCallback : Type :=
| OnTerminateTimeout   (* armed by [_stopChild], lines 274-278 *)
| OnKillTimeout        (* armed by [_transitionToKilling], lines 298-302 *)
| OnRestartTimeout.    (* armed by [_scheduleRestart], lines 330-334 *)

(** An entry of the runtime's timer table: the callback, the clock value at
    which [setTimeout] was called and the delay that was asked for.  When the
    runtime runs the callback is its own affair: Node.js replaces a delay
    outside 1 .. 2^31-1 by 1 ms and keeps the time of its timers on a coarser
    clock than [performance.now()], so the model promises nothing about it
    (see [fire]). *)
Record Timer : Type := {
  callback : TimerCallback;
  armed_at : Z;
  delay : Z
}.

(** The time that was asked for. *)
Definition due (t : Timer) : Z := armed_at t + delay t.

(** The longest delay a Node.js timer takes ([TIMEOUT_MAX] in Node's
    lib/internal/timers.js). *)
Definition TIMEOUT_MAX : Z := 2147483647.

(** The delay Node.js gives a timer that was asked for after [ms]: a delay
    below 1 or above [TIMEOUT_MAX] is replaced by 1. *)
Definition node_delay (ms : Z) : Z :=
  if (1 <=? ms) && (ms <=? TIMEOUT_MAX) then ms else 1.

Inductive Exn : Type := InternalError (msg : string).

Inductive Signal : Type := SIGTERM | SIGKILL.

Inductive LogLevel : Type := Line | VerboseLine | WarningLine | ErrorLine.

(** The lines written to the scoped logger, one constructor per template. *)
Inductive Message : Type :=
| StartingNodeService                  (* 'Starting Node service...' *)
| InvokingCommand (cmd : string)       (* 'Invoking command: ' + ... *)
| StartedChild (childPid : Z)          (* `Started child ${childPid}` *)
| TerminatedUnexpectedly (childPid : Z) (code : option Z) (signal : option string)
| TerminatedSuccessfully (childPid : Z) (code : option Z) (signal : option string)
| GotExitEvent (code : option Z) (signal : option string)
| FailedToStart (err : string)         (* `Failed to start: ` + err *)
| RejectedShutdownSignal (childPid : Z) (err : string)
| RejectedKillSignal (childPid : Z) (err : string)
| SendingSIGTERM                       (* 'Sending SIGTERM' *)
| TakingTooLong                        (* 'Child is taking too long to terminate' *)
| SendingSIGKILL                       (* 'Sending SIGKILL' *)
| AbandoningChild   (* 'Abandoning child process because SIGKILL did not work' *)
| WaitingForCodeChange
    (* 'The child process failed. Waiting for a code change before restarting...' *)
| ExtendingTimeout                     (* 'Extending timeout' *)
| TimeToRestart.                       (* 'Time to restart' *)

(** What the plugin does to the outside world. *)
Inductive Effect : Type :=
| Log (level : LogLevel) (msg : Message)
| ConsoleError (e : Exn)     (* console.error('UNCAUGHT: ' + error.toString()) *)
| Spawn (cmd : string) (child : ChildProcess)   (* child_process.spawn *)
| KillProcessTreeOnExit (child : ChildProcess)
| ProcessKill (target : Z) (sig : Signal)       (* process.kill *)
| KillProcessTree (child : ChildProcess)        (* SubprocessTerminator *)
| Uncaught (e : Exn).           (* an exception that left the handler *)

(** The private fields of [class NodeServicePlugin] (source lines 38-58) that
    the state machine reads or writes.  [_shellCommand] is a string, as the
    field is declared (line 53); what the lookup in package.json can leave
    there is the matter of [Loader] below. *)
Record NodeServicePlugin : Type := {
  _activeChildProcess : option ChildProcess;
  _state : State;
  _timeout : option nat;
  _isWindows : bool;
  _restartTime : option Z;
  _configuration : INodeServicePluginCompleteConfiguration;
  _shellCommand : string;
  _childProcessFailed : bool
}.

(** The part of Node.js the plugin observes.  [clock] is the value
    [performance.now()] returns next; [drift] lists how far the clock moves
    after each successive reading (nothing once the list is used up), so two
    readings in one handler need not agree.  [timers] is the table of armed
    timers by handle.  [trace] is the log of effects, each stamped with the
    clock value at which it happened.  [most_armed] is the largest size the
    timer table has had so far; the table grows in [setTimeout] only, where
    the mark is taken. *)
Record Runtime : Type := {
  clock : Z;
  drift : list N;
  timers : gmap nat Timer;
  next_handle : nat;
  next_pid : Z;
  trace : list (Z * Effect);
  most_armed : nat
}.

Record World : Type := { this : NodeServicePlugin; node : Runtime }.

(** ** Field updates *)

Definition with_activeChildProcess (c : option ChildProcess) (p : NodeServicePlugin) :=
  {| _activeChildProcess := c; _state := _state p; _timeout := _timeout p;
     _isWindows := _isWindows p; _restartTime := _restartTime p;
     _configuration := _configuration p; _shellCommand := _shellCommand p;
     _childProcessFailed := _childProcessFailed p |}.

Definition with_state (s : State) (p : NodeServicePlugin) :=
  {| _activeChildProcess := _activeChildProcess p; _state := s;
     _timeout := _timeout p; _isWindows := _isWindows p;
     _restartTime := _restartTime p; _configuration := _configuration p;
     _shellCommand := _shellCommand p;
     _childProcessFailed := _childProcessFailed p |}.

Definition with_timeout (h : option nat) (p : NodeServicePlugin) :=
  {| _activeChildProcess := _activeChildProcess p; _state := _state p;
     _timeout := h; _isWindows := _isWindows p;
     _restartTime := _restartTime p; _configuration := _configuration p;
     _shellCommand := _shellCommand p;
     _childProcessFailed := _childProcessFailed p |}.

Definition with_restartTime (r : option Z) (p : NodeServicePlugin) :=
  {| _activeChildProcess := _activeChildProcess p; _state := _state p;
     _timeout := _timeout p; _isWindows := _isWindows p;
     _restartTime := r; _configuration := _configuration p;
     _shellCommand := _shellCommand p;
     _childProcessFailed := _childProcessFailed p |}.

Definition with_childProcessFailed (b : bool) (p : NodeServicePlugin) :=
  {| _activeChildProcess := _activeChildProcess p; _state := _state p;
     _timeout := _timeout p; _isWindows := _isWindows p;
     _restartTime := _restartTime p; _configuration := _configuration p;
     _shellCommand := _shellCommand p; _childProcessFailed := b |}.

Definition with_clock (t : Z) (r : Runtime) :=
  {| clock := t; drift := drift r; timers := timers r;
     next_handle := next_handle r; next_pid := next_pid r; trace := trace r;
     most_armed := most_armed r |}.

Definition with_timers (m : gmap nat Timer) (r : Runtime) :=
  {| clock := clock r; drift := drift r; timers := m;
     next_handle := next_handle r; next_pid := next_pid r; trace := trace r;
     most_armed := most_armed r |}.

Definition on_this (f : NodeServicePlugin -> NodeServicePlugin) (w : World) : World :=
  {| this := f (this w); node := node w |}.

Definition on_node (f : Runtime -> Runtime) (w : World) : World :=
  {| this := this w; node := f (node w) |}.

(** ** The monad of handlers

    A JavaScript statement either completes or throws; in both cases the
    writes it made to the object and to the runtime stay. *)

Inductive Outcome (A : Type) : Type :=
| Returned (a : A)
| Thrown (e : Exn).
Arguments Returned {A} a.
Arguments Thrown {A} e.

Definition M (A : Type) : Type := World -> Outcome A * World.

Definition ret {A : Type} (a : A) : M A := fun w => (Returned a, w).

Definition bind {A B : Type} (m : M A) (k : A -> M B) : M B :=
  fun w =>
    match m w with
    | (Returned a, w') => k a w'
    | (Thrown e, w') => (Thrown e, w')
    end.

Definition throw {A : Type} (e : Exn) : M A := fun w => (Thrown e, w).

(** [try { body } catch (error) { handler }]. *)
Definition try_catch (body : M unit) (handler : Exn -> M unit) : M unit :=
  fun w =>
    match body w with
    | (Returned a, w') => (Returned a, w')
    | (Thrown e, w') => handler e w'
    end.

Definition gets {A : Type} (f : NodeServicePlugin -> A) : M A :=
  fun w => (Returned (f (this w)), w).

Definition assign (f : NodeServicePlugin -> NodeServicePlugin) : M unit :=
  fun w => (Returned tt, on_this f w).

Declare Scope js_scope.
Delimit Scope js_scope with js.
Notation "x <- m ;; k" := (bind m (fun x => k))
  (at level 100, m at next level, right associativity) : js_scope.
Notation "m ;; k" := (bind m (fun _ => k))
  (at level 100, right associativity) : js_scope.
Local Open Scope js_scope.

Definition exec {A : Type} (m : M A) (w : World) : World := snd (m w).
Definition outcome {A : Type} (m : M A) (w : World) : Outcome A := fst (m w).

(** ** Runtime operations *)

(** Appends an effect to the trace, stamped with the current clock. *)
Definition emit (e : Effect) : M unit :=
  fun w =>
    (Returned tt,
     on_node (fun r =>
       {| clock := clock r; drift := drift r; timers := timers r;
          next_handle := next_handle r; next_pid := next_pid r;
          trace := trace r ++ [(clock r, e)];
          most_armed := most_armed r |}) w).

Definition writeLine (m : Message) : M unit := emit (Log Line m).
Definition writeVerboseLine (m : Message) : M unit := emit (Log VerboseLine m).
Definition writeWarningLine (m : Message) : M unit := emit (Log WarningLine m).
Definition writeErrorLine (m : Message) : M unit := emit (Log ErrorLine m).
Definition console_error (e : Exn) : M unit := emit (ConsoleError e).

(** [performance.now()]: returns the clock, which then moves on by the next
    entry of [drift]. *)
Definition performance_now : M Z :=
  fun w =>
    (Returned (clock (node w)),
     on_node (fun r =>
       {| clock := clock r + Z.of_N (hd 0%N (drift r)); drift := tl (drift r);
          timers := timers r; next_handle := next_handle r;
          next_pid := next_pid r; trace := trace r;
          most_armed := most_armed r |}) w).

(** [setTimeout(cb, ms)]: a fresh handle is entered in the timer table, with
    the delay as it was asked for; the delay Node.js makes of it is
    [node_delay ms]. *)
Definition setTimeout (cb : TimerCallback) (ms : Z) : M nat :=
  fun w =>
    let r := node w in
    let h := next_handle r in
    (Returned h,
     on_node (fun r =>
       let armed :=
         <[h := {| callback := cb; armed_at := clock r; delay := ms |}]> (timers r) in
       {| clock := clock r; drift := drift r; timers := armed;
          next_handle := S h; next_pid := next_pid r; trace := trace r;
          most_armed := Nat.max (most_armed r) (size armed) |}) w).

(** [clearTimeout(h)]: the entry, if still there, is removed. *)
Definition clearTimeout (h : nat) : M unit :=
  fun w => (Returned tt, on_node (fun r => with_timers (delete h (timers r)) r) w).

(** [child_process.spawn(cmd, ...)]: the operating system picks the pid.
    Given a string, the call returns a child also when the program cannot be
    started; that failure comes later, as the ['error'] notification of the
    child. *)
Definition spawn (cmd : string) : M ChildProcess :=
  fun w =>
    let child := {| pid := next_pid (node w) |} in
    (Returned child,
     on_node (fun r =>
       {| clock := clock r; drift := drift r; timers := timers r;
          next_handle := next_handle r; next_pid := next_pid r + 1;
          trace := trace r ++ [(clock r, Spawn cmd child)];
          most_armed := most_armed r |}) w).

(** [process.kill(target, sig)]: the signal is recorded as sent.  The target
    is taken to exist and to be the plugin's to signal, so that the call
    returns; the exception Node.js raises for a process group that is gone
    is outside the model. *)
Definition process_kill (target : Z) (sig : Signal) : M unit :=
  emit (ProcessKill target sig).

(** Modelled from the spec: [SubprocessTerminator] is not among the sources.
    Section 4.3 gives [sendForceful(handle)] as signalling the whole process
    group with a forceful-termination signal, best-effort: the call is
    recorded and returns. *)
Definition killProcessTree (child : ChildProcess) : M unit :=
  emit (KillProcessTree child).

(** Modelled from the spec: [SubprocessTerminator.killProcessTreeOnExit]
    registers the child for termination when the host exits; the call is
    recorded and returns. *)
Definition killProcessTreeOnExit (child : ChildProcess) : M unit :=
  emit (KillProcessTreeOnExit child).

(** ** The methods of the class *)

(** [_clearTimeout] (source lines 337-342). *)
Definition _clearTimeout : M unit :=
  t <- gets _timeout ;;
  match t with
  | Some h =>
      clearTimeout h ;;
      assign (with_timeout None)
  | None => ret tt
  end.

(** [_restartChild] (source lines 167-249).  The three listeners registered
    on the child are [on_close], [on_exit] and [on_error] below; they are
    run by the events of that child. *)
Definition _restartChild : M unit :=
  st <- gets _state ;;
  if negb (State_eqb st Stopped) then throw (InternalError "Invalid state")
  else
    assign (with_state Running) ;;
    _clearTimeout ;;
    cmd <- gets _shellCommand ;;
    writeLine (InvokingCommand cmd) ;;
    child <- spawn cmd ;;
    assign (with_activeChildProcess (Some child)) ;;
    killProcessTreeOnExit child ;;
    let childPid := pid child in
    writeVerboseLine (StartedChild childPid).

(** [_scheduleRestart] (source lines 322-335).  The delay handed to
    [setTimeout] reads [this._restartTime] and then the clock a second
    time. *)
Definition _scheduleRestart (msFromNow : Z) : M unit :=
  now <- performance_now ;;
  let newTime := now + msFromNow in
  rt <- gets _restartTime ;;
  (match rt with
   | None => assign (with_restartTime (Some newTime))
   | Some r =>
       if newTime >? r then assign (with_restartTime (Some newTime))
       else ret tt
   end) ;;
  writeVerboseLine ExtendingTimeout ;;
  _clearTimeout ;;
  rt' <- gets _restartTime ;;
  now' <- performance_now ;;
  h <- setTimeout OnRestartTimeout
         (match rt' with
          | Some r => Z.max 0 (r - now')
          | None => 0    (* not reached: the field was assigned above *)
          end) ;;
  assign (with_timeout (Some h)).

(** [_transitionToStopped] (source lines 305-320). *)
Definition _transitionToStopped : M unit :=
  assign (with_state Stopped) ;;
  _clearTimeout ;;
  assign (with_activeChildProcess None) ;;
  failed <- gets _childProcessFailed ;;
  if negb failed then
    cfg <- gets _configuration ;;
    _scheduleRestart (waitBeforeRestartMs cfg)
  else
    writeLine WaitingForCodeChange.

(** [_transitionToKilling] (source lines 282-303). *)
Definition _transitionToKilling : M unit :=
  assign (with_state Killing) ;;
  _clearTimeout ;;
  writeVerboseLine SendingSIGKILL ;;
  c <- gets _activeChildProcess ;;
  match c with
  | None => throw (InternalError "_activeChildProcess should not be undefined")
  | Some child =>
      writeVerboseLine SendingSIGKILL ;;
      killProcessTree child ;;
      _clearTimeout ;;
      cfg <- gets _configuration ;;
      h <- setTimeout OnKillTimeout (waitForKillMs cfg) ;;
      assign (with_timeout (Some h))
  end.

(** [_stopChild] (source lines 251-280). *)
Definition _stopChild : M unit :=
  st <- gets _state ;;
  if negb (State_eqb st Running) then ret tt
  else
    win <- gets _isWindows ;;
    if win then _transitionToKilling
    else
      c <- gets _activeChildProcess ;;
      match c with
      | None => throw (InternalError "_activeChildProcess should not be undefined")
      | Some child =>
          assign (with_state Stopping) ;;
          _clearTimeout ;;
          writeVerboseLine SendingSIGTERM ;;
          process_kill (- pid child) SIGTERM ;;
          _clearTimeout ;;
          cfg <- gets _configuration ;;
          h <- setTimeout OnTerminateTimeout (waitForTerminateMs cfg) ;;
          assign (with_timeout (Some h))
      end.

(** [_compileHooks_afterEachIteration] (source lines 151-165): the
    rebuild-completed event. *)
Definition _compileHooks_afterEachIteration : M unit :=
  try_catch
    (assign (with_childProcessFailed false) ;;
     st <- gets _state ;;
     if State_eqb st Stopped then
       cfg <- gets _configuration ;;
       _scheduleRestart (waitBeforeRestartMs cfg)
     else _stopChild)
    (fun error => console_error error).

(** [_runCommandAsync] (source lines 142-149). *)
Definition _runCommandAsync : M unit :=
  writeLine StartingNodeService ;;
  _restartChild.

(** The ['close'] listener (source lines 190-212); [childPid] is the pid of
    the child the listener was registered on. *)
Definition on_close (childPid : Z) (code : option Z) (signal : option string) : M unit :=
  st <- gets _state ;;
  if State_eqb st Running then
    writeWarningLine (TerminatedUnexpectedly childPid code signal) ;;
    assign (with_childProcessFailed true) ;;
    _transitionToStopped
  else if State_eqb st Stopping || State_eqb st Killing then
    writeVerboseLine (TerminatedSuccessfully childPid code signal) ;;
    _transitionToStopped
  else ret tt.

(** The ['exit'] listener (source lines 215-217). *)
Definition on_exit (code : option Z) (signal : option string) : M unit :=
  writeVerboseLine (GotExitEvent code signal).

(** The ['error'] listener (source lines 219-248). *)
Definition on_error (childPid : Z) (err : string) : M unit :=
  st <- gets _state ;;
  if State_eqb st Running then
    writeErrorLine (FailedToStart err) ;;
    assign (with_childProcessFailed true) ;;
    _transitionToStopped
  else if State_eqb st Stopping then
    writeWarningLine (RejectedShutdownSignal childPid err) ;;
    _transitionToKilling
  else if State_eqb st Killing then
    writeErrorLine (RejectedKillSignal childPid err) ;;
    _transitionToStopped
  else ret tt.

(** The closures handed to [setTimeout]. *)
Definition terminate_timeout : M unit :=   (* lines 274-278 *)
  assign (with_timeout None) ;;
  writeWarningLine TakingTooLong ;;
  _transitionToKilling.

Definition kill_timeout : M unit :=        (* lines 298-302 *)
  assign (with_timeout None) ;;
  writeErrorLine AbandoningChild ;;
  _transitionToStopped.

Definition restart_timeout : M unit :=     (* lines 330-334 *)
  assign (with_timeout None) ;;
  writeVerboseLine TimeToRestart ;;
  _restartChild.

Definition run_callback (cb : TimerCallback) : M unit :=
  match cb with
  | OnTerminateTimeout => terminate_timeout
  | OnKillTimeout => kill_timeout
  | OnRestartTimeout => restart_timeout
  end.

(** ** The event loop

    The plugin reacts to one event at a time: the two hooks of the build
    pipeline, the notifications of a child process, a timer of the table
    being run by the runtime, and the passing of time. *)
Inductive Event : Type :=
| PostBuildRun                     (* postBuild.hooks.run: [_runCommandAsync] *)
| AfterEachIteration               (* compile.hooks.afterEachIteration *)
| ChildClose (child : ChildProcess) (code : option Z) (signal : option string)
| ChildExit (code : option Z) (signal : option string)
| ChildError (child : ChildProcess) (err : string)
| TimerFires (h : nat)
| Elapse (d : N).

(** An exception that leaves a handler is recorded; the object keeps the
    writes made before it. *)
Definition top_level (m : M unit) (w : World) : World :=
  match m w with
  | (Returned _, w') => w'
  | (Thrown e, w') => exec (emit (Uncaught e)) w'
  end.

(** A timer fires only while it is in the table, at a time of the runtime's
    choosing; it leaves the table before its callback runs.  A handle that
    was cancelled, or that has fired, is no longer in the table and nothing
    runs for it. *)
Definition fire (h : nat) (w : World) : World :=
  match timers (node w) !! h with
  | Some t =>
      top_level (run_callback (callback t))
        (on_node (fun r => with_timers (delete h (timers r)) r) w)
  | None => w
  end.

Definition dispatch (ev : Event) (w : World) : World :=
  match ev with
  | PostBuildRun => top_level _runCommandAsync w
  | AfterEachIteration => top_level _compileHooks_afterEachIteration w
  | ChildClose child code signal => top_level (on_close (pid child) code signal) w
  | ChildExit code signal => top_level (on_exit code signal) w
  | ChildError child err => top_level (on_error (pid child) err) w
  | TimerFires h => fire h w
  | Elapse d => on_node (fun r => with_clock (clock r + Z.of_N d) r) w
  end.

Definition run (evs : list Event) (w : World) : World :=
  fold_left (fun w ev => dispatch ev w) evs w.

(** The plugin as constructed (source lines 40-58), in a runtime with no
    timer armed and nothing logged. *)
Definition initial (cfg : INodeServicePluginCompleteConfiguration)
    (isWindows : bool) (cmd : string) (t0 : Z) (jitter : list N) (pid0 : Z) : World :=
  {| this := {| _activeChildProcess := None; _state := Stopped;
                _timeout := None; _isWindows := isWindows;
                _restartTime := None; _configuration := cfg;
                _shellCommand := cmd; _childProcessFailed := false |};
     node := {| clock := t0; drift := jitter; timers := ∅; next_handle := 0;
                next_pid := pid0; trace := []; most_armed := 0 |} |}.

Inductive reachable (w0 : World) : World -> Prop :=
| reachable_init : reachable w0 w0
| reachable_step w ev : reachable w0 w -> reachable w0 (dispatch ev w).

(** ** Predicates and observations used by the properties *)

(** The state in which each kind of timer is waited for. *)
Definition awaited_in (cb : TimerCallback) : State :=
  match cb with
  | OnTerminateTimeout => Stopping
  | OnKillTimeout => Killing
  | OnRestartTimeout => Stopped
  end.

(** The timer table holds exactly the timer whose handle is in [_timeout],
    and that timer belongs to the current state. *)
Definition tracked (w : World) : Prop :=
  match _timeout (this w) with
  | None => timers (node w) = ∅
  | Some h =>
      ∃ t, timers (node w) = {[h := t]} ∧ awaited_in (callback t) = _state (this w)
  end.

(** The invariant of the worlds the event loop can be in between two
    events. *)
Record wf (w : World) : Prop := {
  wf_tracked : tracked w;
  wf_child : _state (this w) = Stopped ↔ _activeChildProcess (this w) = None;
  wf_deadline : ∀ r, _restartTime (this w) = Some r →
      r ≤ clock (node w) + waitBeforeRestartMs (_configuration (this w));
  wf_most_armed : (most_armed (node w) ≤ 1)%nat
}.

(** What [_clearTimeout] leaves of a timer table. *)
Definition cancel (t : option nat) (m : gmap nat Timer) : gmap nat Timer :=
  match t with
  | Some h => delete h m
  | None => m
  end.

(** Order on optional deadlines: no deadline is below every deadline. *)
Definition deadline_le (a b : option Z) : Prop :=
  match a, b with
  | None, _ => True
  | Some _, None => False
  | Some x, Some y => x ≤ y
  end.

(** The RestartDeadline after [requestRestart], in the words of section 4.2
    of the specification: replaced by the candidate if none is pending or
    the candidate is later than the pending one. *)
Definition RestartDeadline_after (pending : option Z) (candidate : Z) : Z :=
  match pending with
  | None => candidate
  | Some r => if r <? candidate then candidate else r
  end.

(** A sequence of [requestRestart] calls, each preceded by any events of the
    loop: the deadline observed after each call. *)
Fixpoint deadlines (calls : list (list Event * Z)) (w : World) : list (option Z) :=
  match calls with
  | [] => []
  | (evs, msFromNow) :: rest =>
      let w' := exec (_scheduleRestart msFromNow) (run evs w) in
      _restartTime (this w') :: deadlines rest w'
  end.

(** Signals sent to a child, and the steps of the termination chain. *)
Definition is_signal (e : Effect) : bool :=
  match e with
  | ProcessKill _ _ | KillProcessTree _ => true
  | _ => false
  end.

Definition is_graceful (e : Effect) : bool :=
  match e with
  | ProcessKill _ SIGTERM => true
  | _ => false
  end.

Definition is_spawn (e : Effect) : bool :=
  match e with
  | Spawn _ _ => true
  | _ => false
  end.

Definition is_escalation_step (e : Effect) : bool :=
  match e with
  | ProcessKill _ _ | KillProcessTree _ | Log ErrorLine AbandoningChild => true
  | _ => false
  end.

Definition signals (tr : list (Z * Effect)) : list (Z * Effect) :=
  List.filter (fun te => is_signal (snd te)) tr.

Definition spawns (tr : list (Z * Effect)) : list (Z * Effect) :=
  List.filter (fun te => is_spawn (snd te)) tr.

Definition escalation (tr : list (Z * Effect)) : list (Z * Effect) :=
  List.filter (fun te => is_escalation_step (snd te)) tr.

(** The events other than the two hooks of the build pipeline: child
    notifications, timers and the passing of time. *)
Definition is_hook (ev : Event) : bool :=
  match ev with
  | PostBuildRun | AfterEachIteration => true
  | _ => false
  end.

(** The plugin waits for a code change: stopped after a failure, with no
    timer armed. *)
Definition idle (w : World) : Prop :=
  _state (this w) = Stopped
  ∧ _childProcessFailed (this w) = true
  ∧ _timeout (this w) = None
  ∧ timers (node w) = ∅.

Definition graceful_signals (tr : list (Z * Effect)) : list (Z * Effect) :=
  List.filter (fun te => is_graceful (snd te)) tr.

(** The world just after an event that moved the plugin into [Stopped]. *)
Definition entered_stopped (w w' : World) : Prop :=
  let now := clock (node w) in
  let now' := now + Z.of_N (hd 0%N (drift (node w))) in
  let wait := waitBeforeRestartMs (_configuration (this w)) in
  if _childProcessFailed (this w') then idle w'
  else _restartTime (this w') = Some (now + wait)
       ∧ _timeout (this w') = Some (next_handle (node w))
       ∧ timers (node w') =
           {[ next_handle (node w) :=
                {| callback := OnRestartTimeout; armed_at := clock (node w');
                   delay := Z.max 0 (now + wait - now') |} ]}
       ∧ clock (node w') = now' + Z.of_N (hd 0%N (tl (drift (node w)))).

(** The timer [h] of [w] is the pending restart: whenever the runtime runs
    it, [d] milliseconds from now, the child is started, with the shell
    command and the next process id, and no timer is left. *)
Definition restarts_when_fired (h : nat) (w : World) : Prop :=
  ∀ d : N,
    let w' := dispatch (TimerFires h) (dispatch (Elapse d) w) in
    let child := {| pid := next_pid (node w) |} in
    _state (this w') = Running
    ∧ _activeChildProcess (this w') = Some child
    ∧ _timeout (this w') = None
    ∧ timers (node w') = ∅
    ∧ spawns (trace (node w')) =
        spawns (trace (node w))
        ++ [(clock (node w) + Z.of_N d, Spawn (_shellCommand (this w)) child)].

(** The fields no method assigns. *)
Definition same_settings (a b : World) : Prop :=
  _isWindows (this b) = _isWindows (this a)
  ∧ _configuration (this b) = _configuration (this a)
  ∧ _shellCommand (this b) = _shellCommand (this a).

(** ** Sample worlds *)

Definition sample : World := initial defaults false "node server.js" 0 [] 100.

(** A child is running. *)
Definition sample_running : World := run [PostBuildRun] sample.



(** A stop request was made of the running child. *)
Definition sample_stopping : World := run [PostBuildRun; AfterEachIteration] sample.



(** The child crashed while running. *)
Definition sample_crashed : World :=
  run [PostBuildRun; ChildClose {| pid := 100 |} (Some 1) None] sample.

(** ** Further observations *)

(** Exceptions: one that left its handler, or one caught and reported by
    [_compileHooks_afterEachIteration]. *)
Definition is_failure (e : Effect) : bool :=
  match e with
  | ConsoleError _ | Uncaught _ => true
  | _ => false
  end.

Definition failures (tr : list (Z * Effect)) : list (Z * Effect) :=
  List.filter (fun te => is_failure (snd te)) tr.

(** What each kind of armed timer was armed with: in the past, with the
    delay of the configuration for the two termination timers, and due no
    earlier than the pending deadline for the restart timer. *)
Definition timer_fits (w : World) (t : Timer) : Prop :=
  armed_at t ≤ clock (node w)
  ∧ match callback t with
    | OnTerminateTimeout =>
        delay t = waitForTerminateMs (_configuration (this w))
    | OnKillTimeout =>
        delay t = waitForKillMs (_configuration (this w))
    | OnRestartTimeout =>
        ∃ r, _restartTime (this w) = Some r ∧ r ≤ due t
    end.

(** The invariant [wf], with what the event loop also keeps about the timer
    armed, about a shutdown in progress and about a stopped plugin. *)
Record steady (w : World) : Prop := {
  steady_wf : wf w;
  steady_timer : ∀ h t, timers (node w) !! h = Some t → timer_fits w t;
  steady_shutdown :
    _state (this w) = Stopping ∨ _state (this w) = Killing →
    _childProcessFailed (this w) = false ∧ _timeout (this w) ≠ None;
  steady_pending :
    _state (this w) = Stopped → _childProcessFailed (this w) = false →
    _timeout (this w) = None → spawns (trace (node w)) = []
}.

(** The signal, if any, that a stop or an escalation addresses to [child]. *)
Definition addressed_to (child : ChildProcess) (e : Effect) : Prop :=
  e = ProcessKill (- pid child) SIGTERM ∨ e = KillProcessTree child.

(** ** Loading the configuration: [apply] (source lines 60-140)

    The callback tapped on [loadStageConfiguration] reads the optional
    configuration file, starts again from the defaults, overrides them field
    by field, looks the command up in the scripts of package.json and
    decides whether the plugin is enabled.  The callback tapped on [build]
    registers the other hooks.  The fields these callbacks write are kept in
    a record of their own. *)

Module Partial.
(** [INodeServicePluginConfiguration], a [Partial] of the complete
    configuration: [None] is a field left undefined. *)
Record t : Type := {
  commandName : option string;
  ignoreMissingScript : option bool;
  waitBeforeRestartMs : option Z;
  waitForTerminateMs : option Z;
  waitForKillMs : option Z
}.
End Partial.

Definition with_commandName (v : string) (c : INodeServicePluginCompleteConfiguration) :=
  {| commandName := v; ignoreMissingScript := ignoreMissingScript c;
     waitBeforeRestartMs := waitBeforeRestartMs c;
     waitForTerminateMs := waitForTerminateMs c;
     waitForKillMs := waitForKillMs c |}.

Definition with_ignoreMissingScript (v : bool) (c : INodeServicePluginCompleteConfiguration) :=
  {| commandName := commandName c; ignoreMissingScript := v;
     waitBeforeRestartMs := waitBeforeRestartMs c;
     waitForTerminateMs := waitForTerminateMs c;
     waitForKillMs := waitForKillMs c |}.

Definition with_waitBeforeRestartMs (v : Z) (c : INodeServicePluginCompleteConfiguration) :=
  {| commandName := commandName c; ignoreMissingScript := ignoreMissingScript c;
     waitBeforeRestartMs := v;
     waitForTerminateMs := waitForTerminateMs c;
     waitForKillMs := waitForKillMs c |}.

Definition with_waitForTerminateMs (v : Z) (c : INodeServicePluginCompleteConfiguration) :=
  {| commandName := commandName c; ignoreMissingScript := ignoreMissingScript c;
     waitBeforeRestartMs := waitBeforeRestartMs c;
     waitForTerminateMs := v;
     waitForKillMs := waitForKillMs c |}.

Definition with_waitForKillMs (v : Z) (c : INodeServicePluginCompleteConfiguration) :=
  {| commandName := commandName c; ignoreMissingScript := ignoreMissingScript c;
     waitBeforeRestartMs := waitBeforeRestartMs c;
     waitForTerminateMs := waitForTerminateMs c;
     waitForKillMs := v |}.

(** [if (x !== undefined) { target = x }]. *)
Definition assign_if_defined {A C : Type} (x : option A) (set : A -> C -> C) (c : C) : C :=
  match x with
  | Some v => set v c
  | None => c
  end.

Module Loader.

(** What [(projectPackageJson.scripts || {})[name]] (source lines 103-105)
    evaluates to when it is not [undefined]: the script of that name in
    package.json or, under a name package.json has no script of, the member
    that every object inherits from [Object.prototype], which is not a
    string. *)
Inductive Member : Type :=
| Script (command : string)
| Inherited (name : string).

(** The names under which an object inherits a member. *)
Definition Object_prototype : list string :=
  ["constructor"; "hasOwnProperty"; "isPrototypeOf"; "propertyIsEnumerable";
   "toLocaleString"; "toString"; "valueOf"; "__proto__";
   "__defineGetter__"; "__defineSetter__";
   "__lookupGetter__"; "__lookupSetter__"].

(** The fields written while the configuration is loaded (source lines
    51-58); [_configuration] and [_shellCommand] are undefined until the
    first load. *)
Record Fields : Type := {
  _nodeServiceConfiguration : option Partial.t;
  _configuration : option INodeServicePluginCompleteConfiguration;
  _shellCommand : option Member;
  _pluginEnabled : bool
}.

(** The plugin as constructed. *)
Definition fresh : Fields :=
  {| _nodeServiceConfiguration := None; _configuration := None;
     _shellCommand := None; _pluginEnabled := false |}.

(** The lines written while loading. *)
Inductive Notice : Type :=
| DisabledMissingScript (commandName : string)
    (* `The plugin is disabled because the project's package.json does not
       have a "${commandName}" script` *)
| MissingScript (commandName : string)
    (* `The project's package.json does not have a "${commandName}" script` *)
| ConfigFileNotFound (projectRelativeFilePath : string).
    (* 'The plugin is disabled because its config file was not found: ' + ... *)

(** What one build stage gives the callback: the configuration file as
    loaded by [tryLoadConfigurationFileForProjectAsync] ([None] when there is
    none), the script table of package.json ([None] when it has none) and
    the path of the configuration file for the log. *)
Record Stage : Type := {
  loaded : option Partial.t;
  scripts : option (gmap string string);
  projectRelativeFilePath : string
}.

(** [(projectPackageJson.scripts || {})[name]]: the table's own entry, else
    the inherited member, else [undefined]. *)
Definition script_of (s : Stage) (name : string) : option Member :=
  match default ∅ (scripts s) !! name with
  | Some command => Some (Script command)
  | None =>
      if bool_decide (name ∈ Object_prototype) then Some (Inherited name)
      else None
  end.

(** The callback tapped on [loadStageConfiguration] (source lines 66-126):
    the fields after it and the lines it wrote. *)
Definition loadStageConfiguration (s : Stage) (p : Fields)
    : Fields * list (LogLevel * Notice) :=
  let nsc := loaded s in
  let cfg := defaults in
  match nsc with
  | Some c =>
      let cfg := assign_if_defined (Partial.commandName c) with_commandName cfg in
      let cfg := assign_if_defined (Partial.ignoreMissingScript c)
                   with_ignoreMissingScript cfg in
      let cfg := assign_if_defined (Partial.waitBeforeRestartMs c)
                   with_waitBeforeRestartMs cfg in
      let cfg := assign_if_defined (Partial.waitForTerminateMs c)
                   with_waitForTerminateMs cfg in
      let cfg := assign_if_defined (Partial.waitForKillMs c)
                   with_waitForKillMs cfg in
      let shell := script_of s (commandName cfg) in
      match shell with
      | None =>
          ({| _nodeServiceConfiguration := nsc; _configuration := Some cfg;
              _shellCommand := shell; _pluginEnabled := false |},
           [if ignoreMissingScript cfg
            then (Line, DisabledMissingScript (commandName cfg))
            else (ErrorLine, MissingScript (commandName cfg))])
      | Some _ =>
          ({| _nodeServiceConfiguration := nsc; _configuration := Some cfg;
              _shellCommand := shell; _pluginEnabled := true |}, [])
      end
  | None =>
      ({| _nodeServiceConfiguration := nsc; _configuration := Some cfg;
          _shellCommand := _shellCommand p; _pluginEnabled := _pluginEnabled p |},
       [(VerboseLine, ConfigFileNotFound (projectRelativeFilePath s))])
  end.

(** The hooks of a build stage. *)
Inductive Tap : Type :=
| TapLoadStageConfiguration   (* build.hooks.loadStageConfiguration.tapPromise *)
| TapPostBuild                (* build.hooks.postBuild.tap: [_runCommandAsync] *)
| TapCompile.                 (* build.hooks.compile.tap: afterEachIteration *)

(** The callback tapped on [heftSession.hooks.build] (source lines 65-139):
    it taps [loadStageConfiguration], whose callback runs later, and then
    tests [_pluginEnabled] as it is at that moment. *)
Definition build_tap (p : Fields) : list Tap :=
  TapLoadStageConfiguration
  :: (if _pluginEnabled p then [TapPostBuild; TapCompile] else []).

(** One build stage: the [build] hook is called, then the stage runs its
    [loadStageConfiguration] hook. *)
Definition build_stage (s : Stage) (p : Fields) : list Tap * Fields :=
  (build_tap p, fst (loadStageConfiguration s p)).

(** The stages of a session, one after the other: the taps of each stage and
    the fields at the end. *)
Fixpoint build_stages (ss : list Stage) (p : Fields) : list (list Tap) * Fields :=
  match ss with
  | [] => ([], p)
  | s :: rest =>
      let (taps, p') := build_stage s p in
      let (more, p'') := build_stages rest p' in
      (taps :: more, p'')
  end.

(** A project whose configuration file names the command 'constructor' and
    whose package.json has no script of that name. *)
Definition sample_inherited : Stage :=
  {| loaded := Some {| Partial.commandName := Some "constructor";
                       Partial.ignoreMissingScript := None;
                       Partial.waitBeforeRestartMs := None;
                       Partial.waitForTerminateMs := None;
                       Partial.waitForKillMs := None |};
     scripts := Some {[ "start" := "node lib/start.js" ]};
     projectRelativeFilePath := "config/node-service.json" |}.

End Loader.

(** * Properties *)

(** ** Proof tools *)

(** Runs a handler symbolically: every method and runtime operation is
    unfolded, the record projections are computed. *)
Ltac js_unfold :=
  cbv [dispatch top_level run_callback
       _compileHooks_afterEachIteration _runCommandAsync on_close on_exit
       on_error terminate_timeout kill_timeout restart_timeout _stopChild
       _transitionToKilling _transitionToStopped _scheduleRestart
       _restartChild _clearTimeout try_catch exec outcome
       writeLine writeVerboseLine writeWarningLine writeErrorLine
       console_error emit setTimeout clearTimeout spawn performance_now
       process_kill killProcessTree killProcessTreeOnExit
       gets assign bind ret throw on_this on_node cancel
       with_activeChildProcess with_state with_timeout with_restartTime
       with_childProcessFailed with_clock with_timers
       this node _activeChildProcess _state _timeout _isWindows _restartTime
       _configuration _shellCommand _childProcessFailed
       clock drift timers next_handle next_pid trace most_armed
       State_eqb negb orb andb fst snd].

Ltac map_norm :=
  repeat first [ rewrite delete_singleton_eq | rewrite delete_empty
               | rewrite insert_empty | rewrite lookup_empty
               | rewrite lookup_singleton_eq | rewrite map_size_singleton ].

(** Filters a trace that ends in the effects of the handler just run. *)
Ltac trace_filter :=
  unfold graceful_signals, signals, spawns, escalation;
  repeat rewrite List.filter_app; simpl; rewrite ?app_nil_r.

Ltac open_world w :=
  destruct w as [[child st tmo win rt cfg cmd failed] [clk drf tms nh np tr pk]].

(** Splits on the timer an arbitrary world looks up when [h] fires. *)
Ltac fire_cases h :=
  unfold dispatch, fire; simpl;
  match goal with
  | |- context [?m !! h] =>
      destruct (m !! h) as [[cb a d]|]; [simpl; destruct cb | ]
  end.

(** ** Elementary facts *)

Lemma deadline_le_refl (a : option Z) : deadline_le a a.
Proof. destruct a; simpl; [lia | exact I]. Qed.

Lemma deadline_le_trans (a b c : option Z) :
  deadline_le a b -> deadline_le b c -> deadline_le a c.
Proof. destruct a, b, c; simpl; intros; try lia; try contradiction. Qed.

Lemma run_app (evs1 evs2 : list Event) (w : World) :
  run (evs1 ++ evs2) w = run evs2 (run evs1 w).
Proof. unfold run. apply fold_left_app. Qed.

Lemma reachable_run (w0 : World) (evs : list Event) : reachable w0 (run evs w0).
Proof.
  induction evs as [|ev evs IH] using rev_ind.
  - apply reachable_init.
  - rewrite run_app. simpl. apply reachable_step, IH.
Qed.

(** ** The restart scheduler *)

(** The whole effect of [_scheduleRestart] on an arbitrary world. *)
Lemma _scheduleRestart_run (msFromNow : Z) (w : World) :
  let now := clock (node w) in
  let now' := now + Z.of_N (hd 0%N (drift (node w))) in
  let armed := now' + Z.of_N (hd 0%N (tl (drift (node w)))) in
  let deadline := RestartDeadline_after (_restartTime (this w)) (now + msFromNow) in
  let h := next_handle (node w) in
  let table := <[h := {| callback := OnRestartTimeout; armed_at := armed;
                         delay := Z.max 0 (deadline - now') |}]>
                 (cancel (_timeout (this w)) (timers (node w))) in
  _scheduleRestart msFromNow w =
  (Returned tt,
   {| this := with_timeout (Some h) (with_restartTime (Some deadline) (this w));
      node := {| clock := armed; drift := tl (tl (drift (node w)));
                 timers := table;
                 next_handle := S h; next_pid := next_pid (node w);
                 trace := trace (node w) ++ [(now', Log VerboseLine ExtendingTimeout)];
                 most_armed := Nat.max (most_armed (node w)) (size table) |} |}).
Proof.
  open_world w. unfold RestartDeadline_after. simpl.
  destruct rt as [r|]; destruct tmo as [h0|]; js_unfold;
    try (rewrite Z.gtb_ltb; destruct (r <? clk + msFromNow));
    reflexivity.
Qed.

(** C3. For every call [requestRestart(delay)], that is
    [_scheduleRestart(msFromNow)]: the candidate is the clock reading plus
    the delay; the deadline becomes the candidate exactly when none was
    pending or the candidate is later than the pending one, and is kept
    otherwise; and in every case the handle held in [_timeout] is cancelled
    and a new timer is armed with the delay [max(0, deadline - now')],
    [now'] being the second clock reading. *)
Theorem C3_requestRestart (msFromNow : Z) (w : World) :
  let now := clock (node w) in
  let candidate := now + msFromNow in
  let now' := now + Z.of_N (hd 0%N (drift (node w))) in
  let pending := _restartTime (this w) in
  let w' := exec (_scheduleRestart msFromNow) w in
  let h := next_handle (node w) in
  outcome (_scheduleRestart msFromNow) w = Returned tt
  ∧ _restartTime (this w') = Some (RestartDeadline_after pending candidate)
  ∧ (_restartTime (this w') = Some candidate
     ↔ pending = None ∨ ∃ r, pending = Some r ∧ r ≤ candidate)
  ∧ (_restartTime (this w') = pending
     ↔ ∃ r, pending = Some r ∧ candidate ≤ r)
  ∧ _timeout (this w') = Some h
  ∧ timers (node w') =
      <[h := {| callback := OnRestartTimeout;
                armed_at := clock (node w');
                delay := Z.max 0 (RestartDeadline_after pending candidate - now') |}]>
        (cancel (_timeout (this w)) (timers (node w))).
Proof.
  intros now candidate now' pending w' h.
  unfold w', exec, outcome. rewrite _scheduleRestart_run.
  fold now candidate pending now' h. simpl.
  repeat split; try reflexivity.
  - unfold RestartDeadline_after. destruct pending as [r|].
    + destruct (Z.ltb_spec r candidate); intros E; right; exists r;
        (split; [reflexivity|]); try (assert (r = candidate) by congruence); lia.
    + intros _. left. reflexivity.
  - unfold RestartDeadline_after. intros [Hn | [r [-> Hr]]].
    + rewrite Hn. reflexivity.
    + destruct (Z.ltb_spec r candidate); [reflexivity | f_equal; lia].
  - unfold RestartDeadline_after. destruct pending as [r|]; [|discriminate].
    destruct (Z.ltb_spec r candidate); intros E; exists r;
      (split; [reflexivity|]); try (assert (r = candidate) by congruence); lia.
  - unfold RestartDeadline_after. intros [r [-> Hr]].
    destruct (Z.ltb_spec r candidate); [lia | reflexivity].
Qed.

Lemma _scheduleRestart_deadline_le (msFromNow : Z) (w : World) :
  deadline_le (_restartTime (this w))
              (_restartTime (this (exec (_scheduleRestart msFromNow) w))).
Proof.
  unfold exec. rewrite _scheduleRestart_run. simpl.
  unfold RestartDeadline_after.
  destruct (_restartTime (this w)) as [r|]; simpl; [|exact I].
  destruct (Z.ltb_spec r (clock (node w) + msFromNow)); lia.
Qed.

(** No event of the loop lowers the deadline, whatever the world. *)
Lemma dispatch_deadline_le (ev : Event) (w : World) :
  deadline_le (_restartTime (this w)) (_restartTime (this (dispatch ev w))).
Proof.
  open_world w.
  destruct ev as [| |c code sig|code sig|c err|h|d];
    [ | | | | | fire_cases h | ];
    destruct st, child as [c0|], tmo as [h0|], win, failed, rt as [r|];
    js_unfold; try destruct (_ >? _) eqn:Hgt;
    simpl; trivial; lia.
Qed.

Lemma run_deadline_le (evs : list Event) (w : World) :
  deadline_le (_restartTime (this w)) (_restartTime (this (run evs w))).
Proof.
  revert w. induction evs as [|ev evs IH]; intros w; simpl.
  - apply deadline_le_refl.
  - eapply deadline_le_trans; [apply dispatch_deadline_le | apply IH].
Qed.

(** C7. Across any sequence of [requestRestart] calls, with any delays and
    with any events of the loop between them, the deadline never goes down:
    every deadline observed is at least every deadline observed before it,
    starting from the one pending before the first call. *)
Theorem C7_deadline_monotone (calls : list (list Event * Z)) (w : World) :
  StronglySorted deadline_le (_restartTime (this w) :: deadlines calls w).
Proof.
  revert w. induction calls as [|[evs ms] rest IH]; intros w; simpl.
  - constructor; constructor.
  - set (w' := exec (_scheduleRestart ms) (run evs w)).
    assert (Hstep : deadline_le (_restartTime (this w)) (_restartTime (this w'))).
    { eapply deadline_le_trans;
        [apply run_deadline_le | apply _scheduleRestart_deadline_le]. }
    specialize (IH w'). constructor; [exact IH|].
    apply StronglySorted_inv in IH as [_ Hall].
    constructor; [exact Hstep|].
    eapply Forall_impl; [exact Hall|].
    intros d Hd. eapply deadline_le_trans; eassumption.
Qed.

(** ** Requests and notifications that find the plugin stopped *)

(** C8. A stop request while [Stopped] returns at once and leaves every
    field of the plugin and of the runtime as it was: no signal, no
    transition, same child handle, timer, deadline and failure flag. *)
Theorem C8_stop_while_stopped (w : World) :
  _state (this w) = Stopped -> _stopChild w = (Returned tt, w).
Proof.
  open_world w. simpl. intros ->. reflexivity.
Qed.

Lemma C8_stop_while_stopped_witness :
  _state (this sample) = Stopped ∧ _stopChild sample = (Returned tt, sample).
Proof.
  split; [reflexivity | apply (C8_stop_while_stopped sample); reflexivity].
Defined.

(** C10. A ['close'] or an ['error'] notification that finds the plugin
    [Stopped] is ignored: each listener returns with the world exactly as
    it was, so there is no transition, no change of the failure flag, no
    restart scheduled, no signal and no log line. *)
Theorem C10_notifications_while_stopped (w : World) (c : ChildProcess)
    (code : option Z) (signal : option string) (err : string) :
  _state (this w) = Stopped ->
  on_close (pid c) code signal w = (Returned tt, w)
  ∧ on_error (pid c) err w = (Returned tt, w)
  ∧ dispatch (ChildClose c code signal) w = w
  ∧ dispatch (ChildError c err) w = w.
Proof.
  open_world w. simpl. intros ->. repeat split; reflexivity.
Qed.

Lemma C10_notifications_while_stopped_witness :
  _state (this sample_crashed) = Stopped
  ∧ dispatch (ChildClose {| pid := 100 |} (Some 1) None) sample_crashed = sample_crashed
  ∧ dispatch (ChildError {| pid := 100 |} "spawn ENOENT") sample_crashed = sample_crashed.
Proof.
  split; [reflexivity|].
  pose proof (C10_notifications_while_stopped sample_crashed {| pid := 100 |}
                (Some 1) None "spawn ENOENT" eq_refl) as (_ & _ & Hc & He).
  split; [exact Hc | exact He].
Defined.

(** ** The invariant of the event loop *)

Ltac wf_close :=
  split;
  [ unfold tracked; js_unfold; map_norm;
    first [ reflexivity
          | eexists; split; [reflexivity | first [reflexivity | assumption]] ]
  | js_unfold; split; intros; congruence
  | js_unfold; intros r' Hr';
    repeat match goal with
    | H : ∀ r, Some ?x = Some r → _ |- _ => specialize (H x eq_refl)
    | H : ∀ r, None = Some r → _ |- _ => clear H
    end;
    try (injection Hr' as <-); try discriminate; try lia
  | js_unfold; map_norm; lia ].

(** Opens a well-formed world: the timer table becomes empty or the
    singleton of the handle held, and the impossible combinations of state,
    child handle and timer kind are discarded by the caller. *)
Ltac open_wf w H :=
  destruct w as [[child st tmo win rt cfg cmd failed] [clk drf tms nh np tr pk]];
  destruct H as [Ht Hc Hd Hpk]; unfold tracked in Ht; simpl in Ht, Hc, Hd, Hpk;
  destruct tmo as [h0|];
  [ destruct Ht as [[cb0 at0 dl0] [-> Hs]]; simpl in Hs | subst tms ];
  destruct child as [c0|].

(** Discards the worlds in which the child handle does not fit the state. *)
Ltac child_fits Hc :=
  try (exfalso; destruct Hc as [Hc1 Hc2];
       first [ specialize (Hc1 eq_refl) | specialize (Hc2 eq_refl) ];
       discriminate).

Lemma wf_initial cfg isWindows cmd t0 jitter pid0 :
  wf (initial cfg isWindows cmd t0 jitter pid0).
Proof.
  split; simpl.
  - reflexivity.
  - split; reflexivity.
  - intros r [=].
  - lia.
Qed.

Lemma wf_handlers (ev : Event) (w : World) :
  (∀ h, ev ≠ TimerFires h) -> wf w -> wf (dispatch ev w).
Proof.
  intros Hev H. open_wf w H;
    (destruct ev; try (exfalso; eapply Hev; reflexivity));
    destruct st; try (destruct cb0; discriminate Hs); child_fits Hc;
    destruct win, failed, rt as [r|];
    js_unfold; try destruct (_ >? _) eqn:Hgt; wf_close.
Qed.

Lemma wf_fire (h : nat) (w : World) : wf w -> wf (fire h w).
Proof.
  intros H. pose proof H as H'. unfold fire. open_wf w H; simpl.
  3,4: rewrite lookup_empty; exact H'.
  all: destruct (decide (h = h0)) as [->|Hne];
    [ rewrite lookup_singleton_eq | rewrite lookup_singleton_ne by congruence; exact H' ].
  all: simpl; destruct cb0; simpl in Hs; subst st; child_fits Hc;
    destruct win, failed, rt as [r|];
    js_unfold; try destruct (_ >? _) eqn:Hgt; wf_close.
Qed.

Lemma wf_dispatch (ev : Event) (w : World) : wf w -> wf (dispatch ev w).
Proof.
  destruct ev; try (apply wf_handlers; intros h'; discriminate).
  apply wf_fire.
Qed.

Lemma reachable_wf (w0 w : World) : wf w0 -> reachable w0 w -> wf w.
Proof.
  intros H0 Hr. induction Hr as [|w ev _ IH]; [exact H0|].
  apply wf_dispatch, IH.
Qed.

Lemma wf_run (evs : list Event) (w : World) : wf w -> wf (run evs w).
Proof. intros H. eapply reachable_wf; [exact H | apply reachable_run]. Qed.

(** A running child always has its handle. *)
Lemma wf_running_child (w : World) :
  wf w -> _state (this w) = Running ->
  ∃ c, _activeChildProcess (this w) = Some c.
Proof.
  intros [_ Hc _ _] Hst. destruct (_activeChildProcess (this w)) as [c|].
  - exists c. reflexivity.
  - destruct Hc as [_ Hc]. specialize (Hc eq_refl). congruence.
Qed.

(** Each of the three operations that arm a timer cancels the timer held in
    [_timeout] before it arms the new one, whatever the world. *)
Lemma arming_cancels_first (v : World) :
  let cancelled := cancel (_timeout (this v)) (timers (node v)) in
  let h := next_handle (node v) in
  (∀ ms, ∃ t, timers (node (exec (_scheduleRestart ms) v)) = <[h := t]> cancelled)
  ∧ (∀ c, _activeChildProcess (this v) = Some c →
       ∃ t, timers (node (exec _transitionToKilling v)) = <[h := t]> cancelled)
  ∧ (∀ c, _activeChildProcess (this v) = Some c → _state (this v) = Running →
       ∃ t, timers (node (exec _stopChild v)) = <[h := t]> cancelled).
Proof.
  cbv zeta. split; [|split].
  - intros ms. unfold exec. rewrite _scheduleRestart_run. simpl.
    eexists. reflexivity.
  - intros c. open_world v. simpl. intros ->.
    destruct tmo as [h0|]; js_unfold; eexists; reflexivity.
  - intros c. open_world v. simpl. intros -> ->.
    destruct tmo as [h0|], win; js_unfold; eexists; reflexivity.
Qed.

(** C9. The timer table never holds more than one timer: its largest size so
    far, taken at every [setTimeout], is at most 1 in every world the event
    loop can reach.  In such a world the one timer armed, if any, is the one
    whose handle the plugin holds in [_timeout], and each operation that arms
    a timer first cancels that one. *)
Theorem C9_at_most_one_timer cfg isWindows cmd t0 jitter pid0 (w : World) :
  reachable (initial cfg isWindows cmd t0 jitter pid0) w ->
  (most_armed (node w) ≤ 1)%nat
  ∧ (size (timers (node w)) ≤ 1)%nat
  ∧ (∀ h, is_Some (timers (node w) !! h) → _timeout (this w) = Some h)
  ∧ (_timeout (this w) = None → timers (node w) = ∅)
  ∧ (∀ ms, size (timers (node (exec (_scheduleRestart ms) w))) = 1%nat)
  ∧ (∀ c, _activeChildProcess (this w) = Some c →
       size (timers (node (exec _transitionToKilling w))) = 1%nat)
  ∧ (_state (this w) = Running →
       size (timers (node (exec _stopChild w))) = 1%nat).
Proof.
  intros Hr. pose proof (reachable_wf _ _ (wf_initial _ _ _ _ _ _) Hr) as H.
  pose proof (wf_running_child w H) as Hchild.
  destruct (arming_cancels_first w) as (Hsched & Hkill & Hstop).
  assert (Hcancel : cancel (_timeout (this w)) (timers (node w)) = ∅).
  { destruct H as [Ht _ _ _]. unfold tracked in Ht. unfold cancel.
    destruct (_timeout (this w)) as [h0|]; [|exact Ht].
    destruct Ht as [t [-> _]]. apply delete_singleton_eq. }
  rewrite Hcancel in Hsched, Hkill, Hstop.
  destruct H as [Ht _ _ Hpk]. unfold tracked in Ht.
  split; [exact Hpk|].
  assert (Hsize : (size (timers (node w)) ≤ 1)%nat
                  ∧ (∀ h, is_Some (timers (node w) !! h) → _timeout (this w) = Some h)
                  ∧ (_timeout (this w) = None → timers (node w) = ∅)).
  { destruct (_timeout (this w)) as [h0|].
    - destruct Ht as [t [-> _]]. repeat split.
      + rewrite map_size_singleton. lia.
      + intros h [t' Hl]. apply lookup_singleton_Some in Hl as [-> _]. reflexivity.
      + discriminate.
    - rewrite Ht. repeat split.
      + rewrite map_size_empty. lia.
      + intros h [t' Hl]. rewrite lookup_empty in Hl. discriminate. }
  destruct Hsize as (Hs1 & Hs2 & Hs3).
  repeat split; try assumption.
  - intros ms. destruct (Hsched ms) as [t ->].
    rewrite insert_empty. apply map_size_singleton.
  - intros c Hc. destruct (Hkill c Hc) as [t ->].
    rewrite insert_empty. apply map_size_singleton.
  - intros Hst. destruct (Hchild Hst) as [c Hc].
    destruct (Hstop c Hc Hst) as [t ->].
    rewrite insert_empty. apply map_size_singleton.
Qed.

Lemma C9_at_most_one_timer_witness :
  (most_armed (node (run [AfterEachIteration; Elapse 500; AfterEachIteration] sample)) ≤ 1)%nat.
Proof.
  apply (C9_at_most_one_timer defaults false "node server.js" 0 [] 100).
  apply (reachable_run sample).
Defined.

(** ** The restart timer coming due *)

(** A stale deadline does no harm: in a well-formed world the deadline kept
    from an earlier request is not beyond the candidate of a new request for
    [waitBeforeRestartMs], so that request sets the deadline as if none had
    been pending. *)
Lemma stale_deadline_harmless (w : World) :
  wf w ->
  RestartDeadline_after (_restartTime (this w))
    (clock (node w) + waitBeforeRestartMs (_configuration (this w)))
  = clock (node w) + waitBeforeRestartMs (_configuration (this w)).
Proof.
  intros [_ _ Hd _]. unfold RestartDeadline_after.
  destruct (_restartTime (this w)) as [r|]; [|reflexivity].
  specialize (Hd r eq_refl).
  destruct (Z.ltb_spec r (clock (node w) + waitBeforeRestartMs (_configuration (this w))));
    lia.
Qed.

(** What entering [Stopped] with the failure flag down leaves in the timer
    table: a restart timer under the fresh handle, held in [_timeout]. *)
Lemma _transitionToStopped_schedules (w : World) :
  _childProcessFailed (this w) = false ->
  let w' := exec _transitionToStopped w in
  _state (this w') = Stopped
  ∧ _timeout (this w') = Some (next_handle (node w))
  ∧ ∃ t, timers (node w') !! next_handle (node w) = Some t
         ∧ callback t = OnRestartTimeout.
Proof.
  open_world w. simpl. intros ->.
  destruct tmo as [h0|], rt as [r|]; js_unfold;
    try destruct (_ >? _); repeat split;
    eexists; (split; [apply lookup_insert_eq | reflexivity]).
Qed.

(** Were the callback of the restart timer run outside [Stopped], the guard
    of [_restartChild] would raise [InternalError('Invalid state')] after
    the line 'Time to restart', with no transition and no child spawned.
    The event loop never runs it there: leaving [Stopped] cancels the restart
    timer (see [restart_timer_only_in_stopped]). *)
Lemma restart_timeout_outside_stopped (w : World) :
  _state (this w) ≠ Stopped ->
  restart_timeout w =
    (Thrown (InternalError "Invalid state"),
     exec (writeVerboseLine TimeToRestart) (on_this (with_timeout None) w)).
Proof.
  open_world w. simpl. intros Hst. destruct st; [congruence| | |]; reflexivity.
Qed.


(** The restart timer of a stopped plugin, whenever it is run. *)
Lemma restart_timer_restarts (w : World) (h : nat) (t : Timer) :
  _state (this w) = Stopped ->
  timers (node w) = {[ h := t ]} ->
  callback t = OnRestartTimeout ->
  restarts_when_fired h w.
Proof.
  open_world w. destruct t as [cb a dl]. simpl. intros -> -> -> d.
  unfold dispatch, fire. simpl. rewrite lookup_singleton_eq. simpl.
  destruct tmo as [h0|]; js_unfold; map_norm; trace_filter;
    repeat split; reflexivity.
Qed.




(** ** Fields that never change *)

Lemma dispatch_same_settings (ev : Event) (w : World) :
  same_settings w (dispatch ev w).
Proof.
  open_world w.
  destruct ev as [| |c code sig|code sig|c err|h|d];
    [ | | | | | fire_cases h | ];
    destruct st, child as [c0|], tmo as [h0|], win, failed, rt as [r|];
    js_unfold; try destruct (_ >? _);
    repeat split.
Qed.

Lemma reachable_same_settings (w0 w : World) :
  reachable w0 w -> same_settings w0 w.
Proof.
  intros Hr. induction Hr as [|w ev _ IH].
  - repeat split.
  - destruct IH as (Hw & Hc & Hs).
    destruct (dispatch_same_settings ev w) as (Hw' & Hc' & Hs').
    repeat split; congruence.
Qed.

(** ** Stopping on Windows *)








(** ** Entering [Stopped] *)

(** Uses the bound on the pending deadline to settle the comparison made by
    [_scheduleRestart]. *)
Ltac resolve_deadline :=
  repeat match goal with
  | H : ∀ r, Some ?x = Some r → _ |- _ => specialize (H x eq_refl)
  | H : ∀ r, None = Some r → _ |- _ => clear H
  end;
  try match goal with
  | |- context [?a >? ?b] =>
      destruct (Z.gtb_spec a b);
      [ | assert (b = a) by lia; subst b ]
  end.

Ltac entered :=
  resolve_deadline;
  try (unfold idle; js_unfold; map_norm; repeat split; reflexivity).

Lemma enter_stopped_handlers (ev : Event) (w : World) :
  wf w -> (∀ h, ev ≠ TimerFires h) ->
  _state (this w) ≠ Stopped ->
  _state (this (dispatch ev w)) = Stopped ->
  entered_stopped w (dispatch ev w).
Proof.
  unfold entered_stopped.
  intros H Hev Hne. open_wf w H; simpl in Hne;
    (destruct ev; try (exfalso; eapply Hev; reflexivity));
    (destruct st; [congruence| | |]); try (destruct cb0; discriminate Hs);
    child_fits Hc; destruct win, failed, rt as [r|];
    js_unfold; intros Hst'; try discriminate Hst'; entered.
Qed.

Lemma enter_stopped_fire (h : nat) (w : World) :
  wf w ->
  _state (this w) ≠ Stopped ->
  _state (this (fire h w)) = Stopped ->
  entered_stopped w (fire h w).
Proof.
  unfold entered_stopped, fire.
  intros H Hne. open_wf w H; simpl in Hne |- *.
  3,4: rewrite lookup_empty; simpl; intros Hst'; congruence.
  all: destruct (decide (h = h0)) as [->|Hneq];
    [ rewrite lookup_singleton_eq
    | rewrite lookup_singleton_ne by congruence; simpl; intros Hst'; congruence ].
  all: simpl; destruct cb0; simpl in Hs; subst st; try congruence; child_fits Hc;
    destruct win, failed, rt as [r|];
    js_unfold; intros Hst'; try discriminate Hst'; entered.
Qed.

Lemma enter_stopped (ev : Event) (w : World) :
  wf w ->
  _state (this w) ≠ Stopped ->
  _state (this (dispatch ev w)) = Stopped ->
  entered_stopped w (dispatch ev w).
Proof.
  destruct ev; try (intros; apply enter_stopped_handlers; auto; discriminate).
  intros; apply enter_stopped_fire; auto.
Qed.

(** While idle, the plugin ignores every event but the hooks of the build
    pipeline, and starts no child. *)
Lemma idle_dispatch (ev : Event) (w : World) :
  idle w -> is_hook ev = false ->
  idle (dispatch ev w)
  ∧ spawns (trace (node (dispatch ev w))) = spawns (trace (node w)).
Proof.
  unfold idle. open_world w. simpl. intros (-> & -> & -> & ->) Hev.
  destruct ev; try discriminate Hev;
    try (unfold dispatch, fire; simpl; rewrite lookup_empty);
    js_unfold; trace_filter; repeat split; reflexivity.
Qed.

Lemma idle_run (evs : list Event) (w : World) :
  idle w -> Forall (fun ev => is_hook ev = false) evs ->
  idle (run evs w)
  ∧ spawns (trace (node (run evs w))) = spawns (trace (node w)).
Proof.
  revert w. induction evs as [|ev evs IH]; intros w Hi Hall; simpl.
  - split; [exact Hi | reflexivity].
  - apply Forall_cons in Hall as [Hev Hall].
    destruct (idle_dispatch ev w Hi Hev) as [Hi' Hs'].
    destruct (IH _ Hi' Hall) as [Hi'' Hs''].
    split; [exact Hi'' | congruence].
Qed.

(** A rebuild-completed event ends the idling: the flag is lowered and a
    restart timer is armed, which starts the child whenever it is run. *)
Lemma idle_rebuild (w : World) :
  idle w ->
  let w' := dispatch AfterEachIteration w in
  _childProcessFailed (this w') = false
  ∧ ∃ t, timers (node w') = {[ next_handle (node w) := t ]}
         ∧ callback t = OnRestartTimeout
         ∧ restarts_when_fired (next_handle (node w)) w'.
Proof.
  intros Hi w'.
  assert (H : _state (this w') = Stopped
              ∧ _childProcessFailed (this w') = false
              ∧ ∃ t, timers (node w') = {[ next_handle (node w) := t ]}
                     ∧ callback t = OnRestartTimeout).
  { subst w'. revert Hi. unfold idle. open_world w. simpl.
    intros (-> & -> & -> & ->).
    destruct rt as [r|]; js_unfold; try destruct (_ >? _); map_norm;
      (split; [reflexivity | split; [reflexivity | eexists; split; reflexivity]]). }
  destruct H as (Hst & Hfl & t & Htab & Hcb).
  split; [exact Hfl|]. exists t. split; [exact Htab|]. split; [exact Hcb|].
  exact (restart_timer_restarts w' _ t Hst Htab Hcb).
Qed.

(** C5. Whenever an event moves the plugin into [Stopped]:
    with the failure flag down, the deadline becomes the clock reading plus
    [waitBeforeRestartMs] and the one timer armed is the restart timer, asked
    for no earlier than that deadline and exactly for it when no time passes
    inside the handler; whenever the runtime runs that timer, the child is
    started with the shell command;
    with the failure flag up, no timer is armed, and whatever child
    notifications, timer events and passing of time follow, the plugin stays
    [Stopped] with no timer and spawns nothing, until a rebuild-completed
    event lowers the flag and arms the restart timer, which starts the child
    whenever it is run. *)
Theorem C5_entering_stopped cfg isWindows cmd t0 jitter pid0
    (w : World) (ev : Event) :
  reachable (initial cfg isWindows cmd t0 jitter pid0) w ->
  _state (this w) ≠ Stopped ->
  _state (this (dispatch ev w)) = Stopped ->
  let w' := dispatch ev w in
  let now := clock (node w) in
  let wait := waitBeforeRestartMs cfg in
  (_childProcessFailed (this w') = false →
     _restartTime (this w') = Some (now + wait)
     ∧ ∃ h t, _timeout (this w') = Some h
              ∧ timers (node w') = {[ h := t ]}
              ∧ callback t = OnRestartTimeout
              ∧ now + wait ≤ due t
              ∧ (drift (node w) = [] → 0 ≤ wait → due t = now + wait)
              ∧ _shellCommand (this w') = cmd
              ∧ restarts_when_fired h w')
  ∧ (_childProcessFailed (this w') = true →
     _timeout (this w') = None
     ∧ timers (node w') = ∅
     ∧ ∀ evs, Forall (fun e => is_hook e = false) evs →
         let w'' := run evs w' in
         let w3 := dispatch AfterEachIteration w'' in
         _state (this w'') = Stopped
         ∧ timers (node w'') = ∅
         ∧ spawns (trace (node w'')) = spawns (trace (node w'))
         ∧ _childProcessFailed (this w3) = false
         ∧ ∃ t, timers (node w3) = {[ next_handle (node w'') := t ]}
                ∧ callback t = OnRestartTimeout
                ∧ _shellCommand (this w3) = cmd
                ∧ restarts_when_fired (next_handle (node w'')) w3).
Proof.
  intros Hr Hne Hst w' now wait.
  pose proof (reachable_wf _ _ (wf_initial _ _ _ _ _ _) Hr) as Hwf.
  destruct (reachable_same_settings _ _ Hr) as (_ & Hcfg & _). simpl in Hcfg.
  pose proof (reachable_step _ _ ev Hr) as Hr'. fold w' in Hr'.
  destruct (reachable_same_settings _ _ Hr') as (_ & _ & Hcmd). simpl in Hcmd.
  pose proof (enter_stopped ev w Hwf Hne Hst) as He.
  unfold entered_stopped in He. fold w' in He. rewrite Hcfg in He.
  fold now wait in He.
  split; intros Hf; rewrite Hf in He.
  - destruct He as (Hrt & Htm & Htab & Hclk).
    split; [exact Hrt|]. eexists _, _.
    split; [exact Htm|]. split; [exact Htab|]. split; [reflexivity|].
    unfold due; simpl. rewrite Hclk. split; [lia|]. split.
    + intros Hd Hw. rewrite Hd. simpl. lia.
    + split; [exact Hcmd|].
      exact (restart_timer_restarts w' _ _ Hst Htab eq_refl).
  - destruct He as (Hs & Hfl & Htm & Htab).
    split; [exact Htm|]. split; [exact Htab|].
    intros evs Hall w'' w3.
    assert (Hidle : idle w') by (repeat split; assumption).
    destruct (idle_run evs w' Hidle Hall) as [Hi'' Hsp].
    fold w'' in Hi'', Hsp.
    destruct (idle_rebuild w'' Hi'') as [Hlow (t & Harm & Hcb & Hfire)].
    fold w3 in Hlow, Harm, Hfire.
    assert (Hr3 : reachable (initial cfg isWindows cmd t0 jitter pid0) w3).
    { apply reachable_step. unfold w''.
      clear -Hr'. revert Hr'. generalize w'. induction evs as [|e evs IH];
        intros v Hv; [exact Hv|]. simpl. apply IH, reachable_step, Hv. }
    destruct (reachable_same_settings _ _ Hr3) as (_ & _ & Hcmd3). simpl in Hcmd3.
    destruct Hi'' as (Hs'' & _ & _ & Htab'').
    split; [exact Hs''|]. split; [exact Htab''|]. split; [exact Hsp|].
    split; [exact Hlow|]. exists t.
    split; [exact Harm|]. split; [exact Hcb|]. split; [exact Hcmd3|].
    exact Hfire.
Qed.

Lemma C5_entering_stopped_witness :
  (_childProcessFailed (this sample_crashed) = true
   ∧ timers (node sample_crashed) = ∅)
  ∧ _restartTime (this (dispatch (ChildClose {| pid := 100 |} (Some 0) None)
                          sample_stopping)) = Some 2000.
Proof.
  split.
  - destruct (C5_entering_stopped defaults false "node server.js" 0 [] 100
                sample_running (ChildClose {| pid := 100 |} (Some 1) None)
                (reachable_run sample [PostBuildRun])
                ltac:(discriminate) eq_refl) as [_ Hup].
    split; [reflexivity|].
    destruct (Hup eq_refl) as (_ & Htab & _). exact Htab.
  - destruct (C5_entering_stopped defaults false "node server.js" 0 [] 100
                sample_stopping (ChildClose {| pid := 100 |} (Some 0) None)
                (reachable_run sample [PostBuildRun; AfterEachIteration])
                ltac:(discriminate) eq_refl) as [Hdown _].
    destruct (Hdown eq_refl) as (Hrt & _). exact Hrt.
Defined.

(** ** The escalation chain *)

Ltac js_all := js_unfold; cbv [callback armed_at delay due].









(** The delay Node.js gives a timer is the one asked for only between 1 and
    [TIMEOUT_MAX]. *)
Lemma node_delay_honoured (ms : Z) :
  node_delay ms = ms ↔ 1 ≤ ms ≤ TIMEOUT_MAX.
Proof.
  unfold node_delay, TIMEOUT_MAX.
  destruct (Z.leb_spec 1 ms), (Z.leb_spec ms 2147483647); simpl; lia.
Qed.


(** * Further properties of the state machine *)

Ltac trace_filter_all :=
  unfold failures; trace_filter.

(** Opens a steady world like [open_wf], keeping what is known of the timer
    armed. *)
Ltac open_steady w H :=
  destruct H as [Hwf Htim Hshut Hpend];
  destruct w as [[child st tmo win rt cfg cmd failed] [clk drf tms nh np tr pk]];
  destruct Hwf as [Ht Hc Hd Hpk]; unfold tracked in Ht;
  simpl in Ht, Hc, Hd, Hpk, Htim, Hshut, Hpend;
  destruct tmo as [h0|];
  [ destruct Ht as [[cb0 at0 dl0] [-> Hs]]; simpl in Hs;
    specialize (Htim h0 _ (lookup_singleton_eq _ _));
    unfold timer_fits in Htim; simpl in Htim; destruct Htim as [Hat Hfit]
  | subst tms; clear Htim ];
  destruct child as [c0|].

Lemma steady_initial cfg isWindows cmd t0 jitter pid0 :
  steady (initial cfg isWindows cmd t0 jitter pid0).
Proof.
  split.
  - apply wf_initial.
  - intros h t Hl. simpl in Hl. rewrite lookup_empty in Hl. discriminate.
  - simpl. intros [|]; discriminate.
  - reflexivity.
Qed.

Ltac steady_timer_goal :=
  js_unfold; map_norm; intros h' t' Hl';
  first [ rewrite lookup_empty in Hl'; discriminate
        | apply lookup_singleton_Some in Hl' as [_ <-];
          unfold timer_fits, due; js_all; split;
          [ lia
          | first [ reflexivity | assumption
                  | eexists; split; [reflexivity | lia]
                  | match goal with
                    | H : ∃ r, _ |- _ =>
                        let r0 := fresh "r0" in
                        let E := fresh "E" in
                        destruct H as [r0 [E ?]]; exists r0; split;
                        [ exact E || (injection E as <-; reflexivity) | lia ]
                    end ] ] ].


Ltac steady_shutdown_goal :=
  js_unfold; intros [Hst'|Hst']; try discriminate Hst';
  (split; [ reflexivity || assumption | discriminate ]).

Ltac steady_pending_goal :=
  js_unfold; intros Hst' Hfl' Htm'; try discriminate;
  trace_filter; first [ reflexivity | auto ].

(** Opens a steady world and splits on the event and on every field a
    handler tests. *)
Ltac steady_cases w H ev Hev :=
  destruct H as [Hwf Htim Hshut Hpend];
  destruct w as [[child st tmo win rt cfg cmd failed] [clk drf tms nh np tr pk]];
  destruct Hwf as [Ht Hc Hd Hpk]; unfold tracked in Ht;
  simpl in Ht, Hc, Hd, Hpk, Htim, Hshut, Hpend;
  destruct tmo as [h0|];
  [ destruct Ht as [[cb0 at0 dl0] [-> Hs]]; simpl in Hs;
    specialize (Htim h0 _ (lookup_singleton_eq _ _));
    unfold timer_fits in Htim; simpl in Htim; destruct Htim as [Hat Hfit]
  | subst tms; clear Htim ];
  destruct child as [c0|];
  (destruct ev; try (exfalso; eapply Hev; reflexivity));
  destruct st;
  try match goal with
      | Hs : awaited_in ?cb = _ |- _ => destruct cb; discriminate Hs
      end;
  child_fits Hc;
  destruct win, failed, rt as [r|];
  try (destruct Hshut as [? _];
       [ (left; reflexivity) || (right; reflexivity) | discriminate ]);
  try (exfalso; destruct Hshut as [_ Hshut];
       [ (left; reflexivity) || (right; reflexivity)
       | apply Hshut; reflexivity ]);
  js_unfold; try destruct (_ >? _) eqn:Hgt.

Lemma steady_handlers (ev : Event) (w : World) :
  (∀ h, ev ≠ TimerFires h) -> steady w -> steady (dispatch ev w).
Proof.
  intros Hev H. pose proof (wf_dispatch ev w (steady_wf w H)) as Hwf'.
  split; [exact Hwf'| | |]; clear Hwf'.
  - steady_cases w H ev Hev; steady_timer_goal.
  - steady_cases w H ev Hev; steady_shutdown_goal.
  - steady_cases w H ev Hev; steady_pending_goal.
Qed.

(** The same for a timer coming due: the table is looked up first. *)
Ltac steady_fire_cases w H H' h :=
  destruct H as [Hwf Htim Hshut Hpend];
  destruct w as [[child st tmo win rt cfg cmd failed] [clk drf tms nh np tr pk]];
  destruct Hwf as [Ht Hc Hd Hpk]; unfold tracked in Ht;
  simpl in Ht, Hc, Hd, Hpk, Htim, Hshut, Hpend;
  unfold fire; simpl;
  destruct tmo as [h0|];
  [ destruct Ht as [[cb0 at0 dl0] [-> Hs]]; simpl in Hs;
    specialize (Htim h0 _ (lookup_singleton_eq _ _));
    unfold timer_fits in Htim; simpl in Htim; destruct Htim as [Hat Hfit];
    destruct (decide (h = h0)) as [->|Hne];
    [ rewrite lookup_singleton_eq; simpl;
      destruct cb0; simpl in Hs; subst st
    | rewrite lookup_singleton_ne by congruence;
      first [ exact (steady_timer _ H') | exact (steady_shutdown _ H')
            | exact (steady_pending _ H') ] ]
  | subst tms; rewrite lookup_empty;
    first [ exact (steady_timer _ H') | exact (steady_shutdown _ H')
          | exact (steady_pending _ H') ] ];
  destruct child as [c0|]; child_fits Hc;
  destruct win, failed, rt as [r|];
  try (destruct Hshut as [? _];
       [ (left; reflexivity) || (right; reflexivity) | discriminate ]);
  js_unfold; try destruct (_ >? _) eqn:Hgt.

Lemma steady_fire (h : nat) (w : World) : steady w -> steady (fire h w).
Proof.
  intros H. pose proof (wf_fire h w (steady_wf w H)) as Hwf'.
  pose proof H as H'.
  split; [exact Hwf'| | |]; clear Hwf'.
  - steady_fire_cases w H H' h; steady_timer_goal.
  - steady_fire_cases w H H' h; steady_shutdown_goal.
  - steady_fire_cases w H H' h; steady_pending_goal.
Qed.

Lemma steady_dispatch (ev : Event) (w : World) : steady w -> steady (dispatch ev w).
Proof.
  destruct ev; try (apply steady_handlers; intros h'; discriminate).
  apply steady_fire.
Qed.

Lemma reachable_steady cfg isWindows cmd t0 jitter pid0 (w : World) :
  reachable (initial cfg isWindows cmd t0 jitter pid0) w -> steady w.
Proof.
  intros Hr. induction Hr as [|w ev _ IH].
  - apply steady_initial.
  - apply steady_dispatch, IH.
Qed.

(** ** Starting the child *)

(** X2. A start that finds the plugin outside [Stopped] is refused:
    [_restartChild] throws 'Invalid state' and changes nothing, so the event
    leaves the plugin's fields, the clock and the timer table as they were
    and adds to the trace only the 'Starting Node service...' line and the
    exception. *)
Theorem start_outside_stopped_refused (w : World) :
  _state (this w) ≠ Stopped ->
  _restartChild w = (Thrown (InternalError "Invalid state"), w)
  ∧ this (dispatch PostBuildRun w) = this w
  ∧ timers (node (dispatch PostBuildRun w)) = timers (node w)
  ∧ clock (node (dispatch PostBuildRun w)) = clock (node w)
  ∧ trace (node (dispatch PostBuildRun w)) =
      trace (node w)
      ++ [(clock (node w), Log Line StartingNodeService);
          (clock (node w), Uncaught (InternalError "Invalid state"))].
Proof.
  open_world w. simpl. intros Hst.
  destruct st; [congruence| | |]; js_unfold; rewrite <- ?app_assoc;
    repeat split; reflexivity.
Qed.

Lemma start_outside_stopped_refused_witness :
  this (dispatch PostBuildRun sample_running) = this sample_running.
Proof.
  apply (start_outside_stopped_refused sample_running). discriminate.
Defined.



(** No event spawns a child unless the plugin is [Stopped], whatever the
    world. *)
Lemma no_spawn_outside_stopped (ev : Event) (w : World) :
  _state (this w) ≠ Stopped ->
  spawns (trace (node (dispatch ev w))) = spawns (trace (node w)).
Proof.
  open_world w. simpl. intros Hst.
  destruct ev as [| |c code sig|code sig|c err|h|d];
    [ | | | | | fire_cases h | ];
    (destruct st; [congruence| | |]);
    destruct child as [c0|], tmo as [h0|], win, failed, rt as [r|];
    js_unfold; try destruct (_ >? _); trace_filter; reflexivity.
Qed.

(** X4. While a child handle is held, that is while the plugin is not
    [Stopped], no event spawns another child. *)
Theorem no_second_child cfg isWindows cmd t0 jitter pid0
    (w : World) (ev : Event) :
  reachable (initial cfg isWindows cmd t0 jitter pid0) w ->
  _activeChildProcess (this w) ≠ None ->
  _state (this w) ≠ Stopped
  ∧ spawns (trace (node (dispatch ev w))) = spawns (trace (node w)).
Proof.
  intros Hr Hch.
  pose proof (reachable_wf _ _ (wf_initial _ _ _ _ _ _) Hr) as [_ Hc _ _].
  assert (Hst : _state (this w) ≠ Stopped) by (intros E; apply Hch, Hc, E).
  split; [exact Hst | apply no_spawn_outside_stopped, Hst].
Qed.

Lemma no_second_child_witness :
  spawns (trace (node (dispatch PostBuildRun sample_running)))
  = spawns (trace (node sample_running)).
Proof.
  apply (no_second_child defaults false "node server.js" 0 [] 100
           sample_running PostBuildRun (reachable_run sample [PostBuildRun])).
  discriminate.
Defined.

(** X5. A ['close'] or an ['error'] notification that finds a reachable
    plugin [Running] is taken for the failure of the child held, whichever
    child it comes from: the handle is dropped, the failure flag is raised,
    the plugin is [Stopped] with no timer armed, and no signal is sent. *)
Theorem unexpected_termination cfg isWindows cmd t0 jitter pid0
    (w : World) (c : ChildProcess) (code : option Z) (signal : option string)
    (err : string) :
  reachable (initial cfg isWindows cmd t0 jitter pid0) w ->
  _state (this w) = Running ->
  let failed_world :=
    on_this (fun p => with_activeChildProcess None
                        (with_state Stopped (with_childProcessFailed true p))) w in
  dispatch (ChildClose c code signal) w =
    exec (writeWarningLine (TerminatedUnexpectedly (pid c) code signal) ;;
          writeLine WaitingForCodeChange) failed_world
  ∧ dispatch (ChildError c err) w =
    exec (writeErrorLine (FailedToStart err) ;;
          writeLine WaitingForCodeChange) failed_world
  ∧ timers (node failed_world) = ∅
  ∧ _timeout (this failed_world) = None.
Proof.
  intros Hr Hst.
  pose proof (reachable_wf _ _ (wf_initial _ _ _ _ _ _) Hr) as H.
  destruct w as [[child st tmo win rt conf command failed]
                 [clk drf tms nh np tr pk]].
  destruct H as [Ht Hc _ _]. unfold tracked in Ht. simpl in Ht, Hc, Hst.
  subst st. destruct tmo as [h0|].
  - destruct Ht as [[[] ? ?] [_ Hs]]; discriminate Hs.
  - subst tms. repeat split; reflexivity.
Qed.

Lemma unexpected_termination_witness :
  _childProcessFailed (this (dispatch (ChildClose {| pid := 7 |} None (Some "SIGSEGV"))
                               sample_running)) = true.
Proof.
  destruct (unexpected_termination defaults false "node server.js" 0 [] 100
              sample_running {| pid := 7 |} None (Some "SIGSEGV") "x"
              (reachable_run sample [PostBuildRun]) eq_refl) as [Hclose _].
  rewrite Hclose. reflexivity.
Defined.

(** ** The failure flag *)

(** The flag is raised only by a notification that finds the plugin
    [Running]. *)
Lemma flag_stays_down (ev : Event) (w : World) :
  _state (this w) ≠ Running ->
  _childProcessFailed (this w) = false ->
  _childProcessFailed (this (dispatch ev w)) = false.
Proof.
  open_world w. simpl. intros Hst ->.
  destruct ev as [| |c code sig|code sig|c err|h|d];
    [ | | | | | fire_cases h | ];
    (destruct st; [ |congruence| | ]);
    destruct child as [c0|], tmo as [h0|], win, rt as [r|];
    js_unfold; try destruct (_ >? _); reflexivity.
Qed.

(** The flag is lowered only by the rebuild-completed event. *)
Lemma flag_stays_up (ev : Event) (w : World) :
  ev ≠ AfterEachIteration ->
  _childProcessFailed (this w) = true ->
  _childProcessFailed (this (dispatch ev w)) = true.
Proof.
  open_world w. simpl. intros Hev ->.
  destruct ev as [| |c code sig|code sig|c err|h|d];
    [ | congruence | | | | fire_cases h | ];
    destruct st, child as [c0|], tmo as [h0|], win, rt as [r|];
    js_unfold; try destruct (_ >? _); reflexivity.
Qed.

(** X7. The failure flag changes in two places only, whatever the world: it
    is lowered by the rebuild-completed event and by nothing else, and it is
    raised by a ['close'] or ['error'] notification that finds the plugin
    [Running] and by nothing else. *)
Theorem failure_flag_changes (ev : Event) (w : World) :
  let before := _childProcessFailed (this w) in
  let after := _childProcessFailed (this (dispatch ev w)) in
  (before = true → after = false → ev = AfterEachIteration)
  ∧ (before = false → after = true →
       _state (this w) = Running
       ∧ ((∃ c code signal, ev = ChildClose c code signal)
          ∨ (∃ c err, ev = ChildError c err)))
  ∧ _childProcessFailed (this (dispatch AfterEachIteration w)) = false.
Proof.
  cbv zeta. split; [|split].
  - intros Hb Ha. destruct ev; try reflexivity;
      rewrite flag_stays_up in Ha by (assumption || discriminate); discriminate.
  - intros Hb Ha. split.
    + destruct (_state (this w)) eqn:Hst; try reflexivity;
        rewrite flag_stays_down in Ha
          by (assumption || (rewrite Hst; discriminate)); discriminate.
    + destruct ev as [| |c code sig|code sig|c err|h|d].
      3: left; eauto.
      4: right; eauto.
      all: exfalso; revert Hb Ha; open_world w; simpl; intros ->.
      4: fire_cases h.
      all: destruct st, child as [c0|], tmo as [h0|], win, rt as [r|];
        js_unfold; try destruct (_ >? _); discriminate.
  - open_world w.
    destruct st, child as [c0|], tmo as [h0|], win, rt as [r|];
      js_unfold; try destruct (_ >? _); reflexivity.
Qed.

(** ** The restart timer outside [Stopped] *)







(** ** Shutdown in progress *)



Lemma failure_flag_changes_witness :
  _state (this sample_running) = Running
  ∧ ((∃ c code signal,
        ChildClose {| pid := 100 |} (Some 1) None = ChildClose c code signal)
     ∨ (∃ c err, ChildClose {| pid := 100 |} (Some 1) None = ChildError c err)).
Proof.
  exact (proj1 (proj2 (failure_flag_changes
                         (ChildClose {| pid := 100 |} (Some 1) None)
                         sample_running)) eq_refl eq_refl).
Defined.



(** X9. An ['error'] notification that finds a reachable plugin [Stopping]
    escalates at once, without waiting for the escalation timer: that timer
    is cancelled, the forceful signal goes to the child held, the
    abandonment timer is armed with the delay [waitForKillMs] and the plugin
    is [Killing]. *)
Theorem rejected_signal_escalates conf isWindows command t0 jitter pid0
    (w : World) (c : ChildProcess) (err : string) :
  reachable (initial conf isWindows command t0 jitter pid0) w ->
  _state (this w) = Stopping ->
  let now := clock (node w) in
  let h := next_handle (node w) in
  let w' := dispatch (ChildError c err) w in
  ∃ held, _activeChildProcess (this w) = Some held
  ∧ this w' = with_timeout (Some h) (with_state Killing (this w))
  ∧ timers (node w') =
      {[ h := {| callback := OnKillTimeout; armed_at := now;
                 delay := waitForKillMs conf |} ]}
  ∧ trace (node w') =
      trace (node w)
      ++ [(now, Log WarningLine (RejectedShutdownSignal (pid c) err));
          (now, Log VerboseLine SendingSIGKILL);
          (now, Log VerboseLine SendingSIGKILL);
          (now, KillProcessTree held)].
Proof.
  intros Hr Hst now h w'. subst now h w'.
  pose proof (reachable_wf _ _ (wf_initial _ _ _ _ _ _) Hr) as H.
  destruct (reachable_same_settings _ _ Hr) as (_ & Hcfg & _). simpl in Hcfg.
  open_wf w H; simpl in Hst, Hcfg; subst; child_fits Hc.
  all: exists c0; js_unfold; map_norm; rewrite <- ?app_assoc;
    repeat split; reflexivity.
Qed.

Lemma rejected_signal_escalates_witness :
  _state (this (dispatch (ChildError {| pid := 100 |} "EPERM")
                  (run [PostBuildRun; AfterEachIteration] sample))) = Killing.
Proof.
  destruct (rejected_signal_escalates defaults false "node server.js" 0 [] 100
              (run [PostBuildRun; AfterEachIteration] sample)
              {| pid := 100 |} "EPERM"
              (reachable_run sample [PostBuildRun; AfterEachIteration]) eq_refl)
    as (held & _ & Hthis & _).
  rewrite Hthis. reflexivity.
Defined.

(** X10. A rebuild-completed event that arrives while a shutdown is in
    progress changes nothing: the stop request finds the plugin outside
    [Running] and returns, the failure flag is already down, and the timer
    of the shutdown is neither cancelled nor extended. *)
Theorem rebuild_during_shutdown_ignored cfg isWindows cmd t0 jitter pid0
    (w : World) :
  reachable (initial cfg isWindows cmd t0 jitter pid0) w ->
  _state (this w) = Stopping ∨ _state (this w) = Killing ->
  dispatch AfterEachIteration w = w.
Proof.
  intros Hr Hsh.
  pose proof (reachable_steady _ _ _ _ _ _ _ Hr) as Hsteady.
  destruct (steady_shutdown _ Hsteady Hsh) as [Hflag _].
  destruct w as [[child st tmo win rt conf command failed]
                 [clk drf tms nh np tr pk]].
  simpl in Hsh, Hflag. subst failed.
  destruct Hsh as [-> | ->]; reflexivity.
Qed.

Lemma rebuild_during_shutdown_ignored_witness :
  dispatch AfterEachIteration (run [PostBuildRun; AfterEachIteration] sample)
  = run [PostBuildRun; AfterEachIteration] sample.
Proof.
  apply (rebuild_during_shutdown_ignored defaults false "node server.js" 0 [] 100
           (run [PostBuildRun; AfterEachIteration] sample)
           (reachable_run sample [PostBuildRun; AfterEachIteration])).
  left. reflexivity.
Defined.

(** The whole effect of a rebuild-completed event on a stopped plugin. *)
Lemma rebuild_while_stopped_run conf isWindows command t0 jitter pid0 (w : World) :
  reachable (initial conf isWindows command t0 jitter pid0) w ->
  _state (this w) = Stopped ->
  let now := clock (node w) in
  let deadline := now + waitBeforeRestartMs conf in
  let h := next_handle (node w) in
  let w' := dispatch AfterEachIteration w in
  this w' = with_timeout (Some h)
              (with_restartTime (Some deadline)
                 (with_childProcessFailed false (this w)))
  ∧ (∃ t, timers (node w') = {[ h := t ]}
          ∧ callback t = OnRestartTimeout ∧ deadline ≤ due t)
  ∧ trace (node w') =
      trace (node w)
      ++ [(now + Z.of_N (hd 0%N (drift (node w))), Log VerboseLine ExtendingTimeout)].
Proof.
  intros Hr Hst now deadline h w'. subst now deadline h w'.
  pose proof (reachable_wf _ _ (wf_initial _ _ _ _ _ _) Hr) as H.
  destruct (reachable_same_settings _ _ Hr) as (_ & Hcfg & _). simpl in Hcfg.
  open_wf w H; simpl in Hst, Hcfg; subst; child_fits Hc;
    destruct rt as [r|]; js_unfold; resolve_deadline; map_norm;
    (split; [reflexivity|]);
    (split; [|reflexivity]);
    eexists; (split; [reflexivity|]); (split; [reflexivity|]);
    unfold due; simpl; lia.
Qed.

(** X11. A rebuild-completed event that finds a reachable plugin [Stopped]
    lowers the failure flag, sets the deadline to the clock reading plus
    [waitBeforeRestartMs] and replaces whatever timer was pending by one
    restart timer, due no earlier than that deadline; it writes one verbose
    line, starts no child and leaves the plugin [Stopped]. *)
Theorem rebuild_while_stopped conf isWindows command t0 jitter pid0 (w : World) :
  reachable (initial conf isWindows command t0 jitter pid0) w ->
  _state (this w) = Stopped ->
  let now := clock (node w) in
  let deadline := now + waitBeforeRestartMs conf in
  let h := next_handle (node w) in
  let w' := dispatch AfterEachIteration w in
  this w' = with_timeout (Some h)
              (with_restartTime (Some deadline)
                 (with_childProcessFailed false (this w)))
  ∧ (∃ t, timers (node w') = {[ h := t ]}
          ∧ callback t = OnRestartTimeout ∧ deadline ≤ due t)
  ∧ trace (node w') =
      trace (node w)
      ++ [(now + Z.of_N (hd 0%N (drift (node w))), Log VerboseLine ExtendingTimeout)].
Proof. apply rebuild_while_stopped_run. Qed.

Lemma rebuild_while_stopped_witness :
  _restartTime (this (dispatch AfterEachIteration sample_crashed)) = Some 2000.
Proof.
  destruct (rebuild_while_stopped defaults false "node server.js" 0 [] 100
              sample_crashed
              (reachable_run sample
                 [PostBuildRun; ChildClose {| pid := 100 |} (Some 1) None])
              eq_refl) as (Hthis & _).
  rewrite Hthis. reflexivity.
Defined.

(** ** Signals *)

(** X14. In a reachable world an event sends at most one signal, and only to
    the child whose handle is held: either no signal is added to the trace,
    or exactly one is, a SIGTERM to the process group of the active child or
    a [killProcessTree] of the active child.  An event that finds the plugin
    [Stopped] sends none. *)
Theorem signals_go_to_active_child conf isWindows command t0 jitter pid0
    (w : World) (ev : Event) :
  reachable (initial conf isWindows command t0 jitter pid0) w ->
  let before := signals (trace (node w)) in
  let after := signals (trace (node (dispatch ev w))) in
  (after = before
   ∨ ∃ c e, _activeChildProcess (this w) = Some c ∧ addressed_to c e
            ∧ after = before ++ [(clock (node w), e)])
  ∧ (_state (this w) = Stopped → after = before).
Proof.
  intros Hr before after. subst before after.
  pose proof (reachable_wf _ _ (wf_initial _ _ _ _ _ _) Hr) as H. clear Hr.
  destruct ev as [| |c1 code sig|code sig|c1 err|h|d].
  6: { unfold dispatch, fire. open_wf w H; simpl.
       3,4: rewrite lookup_empty; split; [left|]; reflexivity.
       all: destruct (decide (h = h0)) as [->|Hne];
         [ rewrite lookup_singleton_eq
         | rewrite lookup_singleton_ne by congruence; split; [left|]; reflexivity ].
       all: simpl; destruct cb0; simpl in Hs; subst st; child_fits Hc;
         destruct win, failed, rt as [r|];
         js_unfold; try destruct (_ >? _); trace_filter;
         (split; [| intros; first [discriminate | reflexivity]]);
         first [ left; reflexivity
               | right; eexists _, _; split; [reflexivity|];
                 split; cycle 1;
                 [ rewrite <- ?app_assoc; reflexivity
                 | (left; reflexivity) || (right; reflexivity) ] ]. }
  all: open_wf w H;
    destruct st; try (destruct cb0; discriminate Hs); child_fits Hc;
    destruct win, failed, rt as [r|];
    js_unfold; try destruct (_ >? _); trace_filter;
    (split; [| intros; first [discriminate | reflexivity]]);
    first [ left; reflexivity
          | right; eexists _, _; split; [reflexivity|];
            split; cycle 1;
            [ rewrite <- ?app_assoc; reflexivity
            | (left; reflexivity) || (right; reflexivity) ] ].
Qed.

Lemma signals_go_to_active_child_witness :
  signals (trace (node (dispatch AfterEachIteration sample))) = signals (trace (node sample)).
Proof.
  exact (proj2 (signals_go_to_active_child defaults false "node server.js" 0 [] 100
                  sample AfterEachIteration (reachable_init _)) eq_refl).
Defined.

(** X15. Once a child has been started, a reachable plugin that is [Stopped]
    with the failure flag down always has a restart timer armed: it never
    sits stopped with nothing pending. *)
Theorem stopped_has_restart_pending cfg isWindows cmd t0 jitter pid0 (w : World) :
  reachable (initial cfg isWindows cmd t0 jitter pid0) w ->
  _state (this w) = Stopped ->
  _childProcessFailed (this w) = false ->
  spawns (trace (node w)) ≠ [] ->
  ∃ h t, _timeout (this w) = Some h
         ∧ timers (node w) = {[ h := t ]}
         ∧ callback t = OnRestartTimeout.
Proof.
  intros Hr Hst Hfl Hsp.
  pose proof (reachable_steady _ _ _ _ _ _ _ Hr) as [Hwf _ _ Hpend].
  destruct Hwf as [Ht _ _ _]. unfold tracked in Ht.
  destruct (_timeout (this w)) as [h0|] eqn:Htm.
  - destruct Ht as [t [Htab Haw]]. exists h0, t.
    rewrite Hst in Haw. destruct (callback t); try discriminate Haw.
    repeat split; [exact Htab].
  - exfalso. apply Hsp, Hpend; auto.
Qed.

Lemma stopped_has_restart_pending_witness :
  ∃ h t, _timeout (this (run [PostBuildRun; AfterEachIteration;
                              ChildClose {| pid := 100 |} (Some 0) None] sample)) = Some h
         ∧ timers (node (run [PostBuildRun; AfterEachIteration;
                              ChildClose {| pid := 100 |} (Some 0) None] sample)) = {[ h := t ]}
         ∧ callback t = OnRestartTimeout.
Proof.
  apply (stopped_has_restart_pending defaults false "node server.js" 0 [] 100
           (run [PostBuildRun; AfterEachIteration;
                 ChildClose {| pid := 100 |} (Some 0) None] sample)
           (reachable_run sample _)); [reflexivity | reflexivity |].
  vm_compute. discriminate.
Defined.

(** * Loading the configuration *)

(** X16. Every load starts again from the defaults: whatever was loaded
    before, the configuration left by a load has, field by field, the value
    of the configuration file where the file sets it and the default
    ('serve', false, 2000, 2000, 2000) where it does not, the defaults
    throughout when there is no file. *)
Theorem loaded_configuration (s : Loader.Stage) (p : Loader.Fields) :
  let p' := fst (Loader.loadStageConfiguration s p) in
  let field {A : Type} (f : Partial.t -> option A) (d : A) : A :=
    default d (Loader.loaded s ≫= f) in
  Loader._nodeServiceConfiguration p' = Loader.loaded s
  ∧ Loader._configuration p' =
      Some {| commandName := field Partial.commandName "serve";
              ignoreMissingScript := field Partial.ignoreMissingScript false;
              waitBeforeRestartMs := field Partial.waitBeforeRestartMs 2000;
              waitForTerminateMs := field Partial.waitForTerminateMs 2000;
              waitForKillMs := field Partial.waitForKillMs 2000 |}.
Proof.
  destruct s as [[c|] table path]; cbv zeta; unfold Loader.loadStageConfiguration; simpl.
  - destruct c as [[n|] [i|] [b|] [t|] [k|]]; simpl;
      destruct (Loader.script_of _ _); split; reflexivity.
  - split; reflexivity.
Qed.

(** What the lookup of a name in the script table finds. *)
Lemma script_of_cases (s : Loader.Stage) (name : string) :
  let table := default ∅ (Loader.scripts s) in
  (∀ command, table !! name = Some command →
     Loader.script_of s name = Some (Loader.Script command))
  ∧ (table !! name = None → name ∈ Loader.Object_prototype →
     Loader.script_of s name = Some (Loader.Inherited name))
  ∧ (table !! name = None → name ∉ Loader.Object_prototype →
     Loader.script_of s name = None).
Proof.
  cbv zeta. unfold Loader.script_of. repeat split.
  - intros command ->. reflexivity.
  - intros -> Hin. rewrite bool_decide_eq_true_2 by exact Hin. reflexivity.
  - intros -> Hout. rewrite bool_decide_eq_false_2 by exact Hout. reflexivity.
Qed.

(** X17. When a configuration file is found, the shell command becomes what
    the lookup of the configured name in the script table of package.json
    gives, and the plugin is enabled exactly when that is not undefined:
    when package.json has a script of that name, which is then the command,
    and also when it has none but the name is that of a member every object
    inherits ('constructor', 'toString', ...), the command being then that
    member and not a string.  Otherwise the plugin is disabled and the
    missing script is reported by one line, an error unless
    [ignoreMissingScript] is set.  When no file is found the load reports it
    in one verbose line and leaves the enablement and the shell command of
    the previous load as they were. *)
Theorem load_decides_enablement (s : Loader.Stage) (p : Loader.Fields) :
  let p' := fst (Loader.loadStageConfiguration s p) in
  let log := snd (Loader.loadStageConfiguration s p) in
  let table := default ∅ (Loader.scripts s) in
  match Loader.loaded s with
  | None =>
      Loader._pluginEnabled p' = Loader._pluginEnabled p
      ∧ Loader._shellCommand p' = Loader._shellCommand p
      ∧ log = [(VerboseLine,
                Loader.ConfigFileNotFound (Loader.projectRelativeFilePath s))]
  | Some c =>
      let name := default "serve" (Partial.commandName c) in
      (∀ command, table !! name = Some command →
         Loader._shellCommand p' = Some (Loader.Script command)
         ∧ Loader._pluginEnabled p' = true ∧ log = [])
      ∧ (table !! name = None → name ∈ Loader.Object_prototype →
         Loader._shellCommand p' = Some (Loader.Inherited name)
         ∧ Loader._pluginEnabled p' = true ∧ log = [])
      ∧ (table !! name = None → name ∉ Loader.Object_prototype →
         Loader._shellCommand p' = None
         ∧ Loader._pluginEnabled p' = false
         ∧ log = [if default false (Partial.ignoreMissingScript c)
                  then (Line, Loader.DisabledMissingScript name)
                  else (ErrorLine, Loader.MissingScript name)])
      ∧ (Loader._pluginEnabled p' = true
         ↔ is_Some (table !! name) ∨ name ∈ Loader.Object_prototype)
  end.
Proof.
  destruct s as [[c|] table path]; cbv zeta;
    unfold Loader.loadStageConfiguration; simpl; [|repeat split; reflexivity].
  set (s := {| Loader.loaded := Some c; Loader.scripts := table;
               Loader.projectRelativeFilePath := path |}).
  assert (Hname : ∀ name,
            (∀ command, default ∅ table !! name = Some command →
               Loader.script_of s name = Some (Loader.Script command))
            ∧ (default ∅ table !! name = None → name ∈ Loader.Object_prototype →
               Loader.script_of s name = Some (Loader.Inherited name))
            ∧ (default ∅ table !! name = None → name ∉ Loader.Object_prototype →
               Loader.script_of s name = None))
    by (intros name; exact (script_of_cases s name)).
  destruct c as [[n|] [i|] [b|] [t|] [k|]]; simpl;
    match goal with
    | |- context [Loader.script_of s ?name] =>
        destruct (Hname name) as (Hown & Hinh & Hnone);
        destruct (default ∅ table !! name) as [command|] eqn:El;
        [ rewrite (Hown command eq_refl)
        | destruct (decide (name ∈ Loader.Object_prototype)) as [Hin|Hout];
          [ rewrite (Hinh eq_refl Hin) | rewrite (Hnone eq_refl Hout) ] ]
    end; simpl;
    repeat match goal with |- _ ∧ _ => split | |- _ ↔ _ => split end;
    intros; simplify_eq; try contradiction; repeat split; try reflexivity;
    try (left; eexists; reflexivity); try (right; assumption);
    try match goal with
        | H : is_Some None ∨ _ |- _ => destruct H as [[? ?]|?]; [discriminate | contradiction]
        end.
Qed.

Lemma load_decides_enablement_witness :
  Loader._shellCommand
    (fst (Loader.loadStageConfiguration Loader.sample_inherited Loader.fresh))
  = Some (Loader.Inherited "constructor")
  ∧ Loader._pluginEnabled
      (fst (Loader.loadStageConfiguration Loader.sample_inherited Loader.fresh))
    = true.
Proof.
  destruct (load_decides_enablement Loader.sample_inherited Loader.fresh)
    as (_ & Hinh & _).
  destruct (Hinh ltac:(vm_compute; reflexivity)
                 ltac:(unfold Loader.Object_prototype; constructor))
    as (Hcmd & Hen & _).
  split; [exact Hcmd | exact Hen].
Defined.

(** The plugin is enabled only with a shell command at hand. *)
Lemma enabled_has_command_step (s : Loader.Stage) (p : Loader.Fields) :
  (Loader._pluginEnabled p = true → is_Some (Loader._shellCommand p)) ->
  Loader._pluginEnabled (fst (Loader.loadStageConfiguration s p)) = true ->
  is_Some (Loader._shellCommand (fst (Loader.loadStageConfiguration s p))).
Proof.
  intros Hp. unfold Loader.loadStageConfiguration.
  destruct (Loader.loaded s) as [c|]; simpl; [|exact Hp].
  destruct (Loader.script_of s _) as [cmd|]; simpl; [eauto | discriminate].
Qed.

Lemma build_stages_snd_cons (s : Loader.Stage) (ss : list Loader.Stage)
    (p : Loader.Fields) :
  snd (Loader.build_stages (s :: ss) p)
  = snd (Loader.build_stages ss (fst (Loader.loadStageConfiguration s p))).
Proof.
  simpl. destruct (Loader.build_stages ss _). reflexivity.
Qed.

(** X18. Whatever build stages a session goes through, the plugin is never
    left enabled without a shell command: [_shellCommand] is defined
    whenever [_pluginEnabled] is true, which is what [_restartChild] relies
    on when it spawns. *)
Theorem enabled_has_command (ss : list Loader.Stage) :
  let p := snd (Loader.build_stages ss Loader.fresh) in
  Loader._pluginEnabled p = true -> is_Some (Loader._shellCommand p).
Proof.
  cbv zeta.
  assert (Hgen : ∀ p, (Loader._pluginEnabled p = true → is_Some (Loader._shellCommand p)) →
                      Loader._pluginEnabled (snd (Loader.build_stages ss p)) = true →
                      is_Some (Loader._shellCommand (snd (Loader.build_stages ss p)))).
  { induction ss as [|s ss IH]; intros p Hp.
    - exact Hp.
    - rewrite build_stages_snd_cons. apply IH.
      apply enabled_has_command_step, Hp. }
  apply Hgen. discriminate.
Qed.

Lemma enabled_has_command_witness :
  is_Some (Loader._shellCommand
             (snd (Loader.build_stages
                     [ {| Loader.loaded :=
                            Some {| Partial.commandName := None;
                                    Partial.ignoreMissingScript := None;
                                    Partial.waitBeforeRestartMs := Some 500;
                                    Partial.waitForTerminateMs := None;
                                    Partial.waitForKillMs := None |};
                          Loader.scripts := Some {[ "serve" := "node server.js" ]};
                          Loader.projectRelativeFilePath := "config/node-service.json" |} ]
                     Loader.fresh))).
Proof.
  apply (enabled_has_command
           [ {| Loader.loaded :=
                  Some {| Partial.commandName := None;
                          Partial.ignoreMissingScript := None;
                          Partial.waitBeforeRestartMs := Some 500;
                          Partial.waitForTerminateMs := None;
                          Partial.waitForKillMs := None |};
                Loader.scripts := Some {[ "serve" := "node server.js" ]};
                Loader.projectRelativeFilePath := "config/node-service.json" |} ]).
  reflexivity.
Defined.

Lemma build_stages_fst_app (ss1 ss2 : list Loader.Stage) (p : Loader.Fields) :
  fst (Loader.build_stages (ss1 ++ ss2) p)
  = fst (Loader.build_stages ss1 p)
    ++ fst (Loader.build_stages ss2 (snd (Loader.build_stages ss1 p))).
Proof.
  revert p. induction ss1 as [|s ss1 IH]; intros p; simpl; [reflexivity|].
  specialize (IH (fst (Loader.loadStageConfiguration s p))).
  destruct (Loader.build_stages (ss1 ++ ss2) _) as [m1 q1].
  destruct (Loader.build_stages ss1 _) as [m2 q2]. simpl in IH |- *.
  rewrite IH. reflexivity.
Qed.

Lemma build_stages_fst_length (ss : list Loader.Stage) (p : Loader.Fields) :
  length (fst (Loader.build_stages ss p)) = length ss.
Proof.
  revert p. induction ss as [|s ss IH]; intros p; simpl; [reflexivity|].
  specialize (IH (fst (Loader.loadStageConfiguration s p))).
  destruct (Loader.build_stages ss _). simpl in IH |- *. rewrite IH. reflexivity.
Qed.

(** X19. The hooks of a build stage are wired by the enablement the stages
    before it left, not by its own configuration: the post-build and compile
    hooks of a stage are tapped exactly when the plugin was enabled when the
    stage began.  So the first stage of a session taps the configuration
    hook alone, even when its own load enables the plugin. *)
Theorem stage_wired_by_earlier_loads (before : list Loader.Stage)
    (s : Loader.Stage) (after : list Loader.Stage) :
  let p := snd (Loader.build_stages before Loader.fresh) in
  let taps := fst (Loader.build_stages (before ++ s :: after) Loader.fresh) in
  taps !! length before =
    Some (Loader.TapLoadStageConfiguration
          :: (if Loader._pluginEnabled p
              then [Loader.TapPostBuild; Loader.TapCompile] else []))
  ∧ (before = [] → taps !! 0%nat = Some [Loader.TapLoadStageConfiguration]).
Proof.
  cbv zeta. rewrite build_stages_fst_app.
  assert (Hk : ∀ p, (fst (Loader.build_stages before Loader.fresh)
                     ++ fst (Loader.build_stages (s :: after) p)) !! length before
                    = Some (Loader.build_tap p)).
  { intros p. rewrite lookup_app_r by (rewrite build_stages_fst_length; lia).
    rewrite build_stages_fst_length, Nat.sub_diag. simpl.
    destruct (Loader.build_stages after _). reflexivity. }
  split.
  - apply Hk.
  - intros ->. simpl. destruct (Loader.build_stages after _). reflexivity.
Qed.

Lemma stage_wired_by_earlier_loads_witness :
  fst (Loader.build_stages
         ([] ++ [ {| Loader.loaded :=
                       Some {| Partial.commandName := None;
                               Partial.ignoreMissingScript := None;
                               Partial.waitBeforeRestartMs := None;
                               Partial.waitForTerminateMs := None;
                               Partial.waitForKillMs := None |};
                     Loader.scripts := Some {[ "serve" := "node server.js" ]};
                     Loader.projectRelativeFilePath := "config/node-service.json" |} ])
         Loader.fresh) !! 0%nat
  = Some [Loader.TapLoadStageConfiguration].
Proof.
  exact (proj2 (stage_wired_by_earlier_loads []
                  {| Loader.loaded :=
                       Some {| Partial.commandName := None;
                               Partial.ignoreMissingScript := None;
                               Partial.waitBeforeRestartMs := None;
                               Partial.waitForTerminateMs := None;
                               Partial.waitForKillMs := None |};
                     Loader.scripts := Some {[ "serve" := "node server.js" ]};
                     Loader.projectRelativeFilePath := "config/node-service.json" |}
                  []) eq_refl).
Defined.
